(** * Event-loop integration core: [common/node_bindings.cc]

    A shallow embedding of [atom::NodeBindings] and of the two threads that
    drive it, with the properties of the specification proved against it. *)

From Stdlib Require Import String Ascii List ZArith Lia Bool Arith.
Import ListNotations.
Open Scope string_scope.
Open Scope nat_scope.
Open Scope list_scope.

(** ** Platforms and native strings *)

(** The three configurations the preprocessor distinguishes in the file. *)
Inductive OS : Type := OS_WIN | OS_MACOSX | OS_POSIX.

(** [std::wstring]: a sequence of 16-bit code units. *)
Definition wstring : Type := list Z.

(** [CommandLine::StringType]: wide on Windows, narrow elsewhere. *)
Definition StringType (os : OS) : Type :=
  match os with OS_WIN => wstring | _ => string end.

(** ** Results of fallible code *)

(** What the C++ leaves undefined is made an explicit fault. *)
Inductive Fault : Type :=
| NullDeref (what : string)
| OutOfRange (what : string)
| InvalidHandle (what : string).

Inductive Result (A : Type) : Type :=
| Ok (a : A)
| Crash (f : Fault).
Arguments Ok {A} a.
Arguments Crash {A} f.

(** ** POSIX model of [base::FilePath]

    [DirName], [Append] and [StripTrailingSeparatorsInternal] for the
    configuration without drive letters, where [FindDriveLetter] is [npos]
    and the separator is the slash.  The general theorems below do not
    depend on it; it makes the path examples executable. *)
Module PosixPath.

Definition sep : ascii := "/"%char.
Definition IsSeparator (c : ascii) : bool := Ascii.eqb c sep.

Definition char_at (l : list ascii) (i : nat) : ascii := nth i l "000"%char.

(** The loop of [StripTrailingSeparatorsInternal], [pos] counting down;
    [start] is 1 and [last_stripped] is [None] for [npos]. *)
Fixpoint strip_loop (pos : nat) (last_stripped : option nat) (path : list ascii)
  : list ascii :=
  match pos with
  | O => path
  | S p =>
      if (1 <? pos) && IsSeparator (char_at path p) then
        if negb (pos =? 2)
           || match last_stripped with Some k => k =? 3 | None => false end
           || negb (IsSeparator (char_at path 0))
        then strip_loop p (Some pos) (firstn p path)
        else strip_loop p last_stripped path
      else path
  end.

Definition StripTrailingSeparators (path : list ascii) : list ascii :=
  strip_loop (length path) None path.

(** [find_last_of(kSeparators)]: index of the last separator, if any. *)
Fixpoint find_last_sep (l : list ascii) (i : nat) (acc : option nat) : option nat :=
  match l with
  | [] => acc
  | c :: r => find_last_sep r (S i) (if IsSeparator c then Some i else acc)
  end.

Definition DirName_chars (path : list ascii) : list ascii :=
  let p := StripTrailingSeparators path in
  let q :=
    match find_last_sep p 0 None with
    | None => []
    | Some 0 => firstn 1 p
    | Some 1 => if IsSeparator (char_at p 0) then firstn 2 p else firstn 1 p
    | Some k => firstn k p
    end in
  let q := StripTrailingSeparators q in
  match q with [] => ["."%char] | _ => q end.

Definition Append_chars (path component : list ascii) : list ascii :=
  match path with
  | ["."%char] => component
  | _ =>
      let p := StripTrailingSeparators path in
      let p :=
        match component, p with
        | _ :: _, _ :: _ =>
            if IsSeparator (char_at p (length p - 1)) then p else p ++ [sep]
        | _, _ => p
        end in
      p ++ component
  end.

(** Modelled from the spec: one step to the parent directory, the [/..] of
    the rule for the resources directory; the code calls
    [base::FilePath::DirName], which is chromium's. *)
Definition DirName (p : string) : string :=
  string_of_list_ascii (DirName_chars (list_ascii_of_string p)).

(** Modelled from the spec: a component put after a path; the code calls
    [base::FilePath::Append] and [AppendASCII], which are chromium's. *)
Definition Append (p c : string) : string :=
  string_of_list_ascii
    (Append_chars (list_ascii_of_string p) (list_ascii_of_string c)).

End PosixPath.

(** ** The data the core works on *)

Definition SecurityToken : Type := Z.

(** A [v8::Context] is a mutable object; it is named by its index in the
    isolate's store of security tokens. *)
Definition ContextId : Type := nat.

Inductive Value : Type :=
| VProcessObject (argv exec_argv : list string)
| VGlobal (c : ContextId)
| VString (s : string).

(** [node::Environment]: the context it lives in and its process object. *)
Record Environment : Type := mkEnvironment {
  env_context : ContextId;
  env_process_object : Value
}.

(** The part of [WebKit::WebFrame] that [BindTo] reads: an empty handle is
    [None]. *)
Record WebFrame : Type := mkWebFrame {
  mainWorldScriptContext : option ContextId;
  document_url : string
}.

(** [message_loop_] points to the loop of the main thread or is [NULL]. *)
Inductive MessageLoopRef : Type := MainThreadLoop.

(** The only closure the file posts is [UvRunOnce] bound to [this]. *)
Inductive Task : Type := TaskUvRunOnce.

Inductive TimerState : Type :=
| TimerUninitialized
| TimerInitialized
| TimerActive (timeout repeat : Z)
| TimerStopped.

(** Calls into the collaborators, in the order they are made. *)
Inductive Event : Type :=
| EvTimerInit
| EvTimerStart (timeout repeat : Z)
| EvTimerStop
| EvNodeInit (argv : list string)
| EvV8Initialize
| EvCreateEnvironment (argv exec_argv : list string)
| EvEnterContext (c : ContextId)
| EvSetSecurityToken (c : ContextId) (tok : SecurityToken)
| EvCompileCefodeMainSource
| EvScriptRun
| EvCall (receiver : Value) (args : list Value)
| EvAsyncInit
| EvSemInit (n : nat)
| EvThreadCreate
| EvUvRun (r : Z)
| EvQuitWhenIdle
| EvSemPost
| EvSemWait
| EvPollEvents
| EvPostTask
| EvAsyncSend
| EvThreadJoin
| EvRunUntilIdle
| EvSemDestroy
| EvSetClosed.

(** The members of [NodeBindings], the globals of the file and of node, and
    the collaborators' state the file can observe.  [uv_script] is the
    simulated I/O loop: the outcomes [(r, stop_flag)] of the coming
    [uv_run] calls; once exhausted, [uv_run] reports one active handle (the
    dummy one) and leaves [stop_flag] alone. *)
Record State : Type := mkState {
  is_browser_ : bool;
  message_loop_ : option MessageLoopRef;
  embed_closed_ : bool;
  embed_sem_ : option nat;
  idle_timer_ : TimerState;
  dummy_uv_handle_ : bool;
  async_pending : bool;
  global_env : option Environment;
  g_standalone_mode : bool;
  g_upstream_node_mode : bool;
  stop_flag : Z;
  uv_script : list (Z * Z);
  task_queue : list Task;
  tokens : list (ContextId * SecurityToken);
  trace : list Event
}.

Definition set_message_loop_ (v : option MessageLoopRef) (s : State) : State :=
  mkState s.(is_browser_) v s.(embed_closed_) s.(embed_sem_) s.(idle_timer_)
    s.(dummy_uv_handle_) s.(async_pending) s.(global_env) s.(g_standalone_mode)
    s.(g_upstream_node_mode) s.(stop_flag) s.(uv_script) s.(task_queue)
    s.(tokens) s.(trace).

Definition set_embed_closed_ (v : bool) (s : State) : State :=
  mkState s.(is_browser_) s.(message_loop_) v s.(embed_sem_) s.(idle_timer_)
    s.(dummy_uv_handle_) s.(async_pending) s.(global_env) s.(g_standalone_mode)
    s.(g_upstream_node_mode) s.(stop_flag) s.(uv_script) s.(task_queue)
    s.(tokens) s.(trace).

Definition set_embed_sem_ (v : option nat) (s : State) : State :=
  mkState s.(is_browser_) s.(message_loop_) s.(embed_closed_) v s.(idle_timer_)
    s.(dummy_uv_handle_) s.(async_pending) s.(global_env) s.(g_standalone_mode)
    s.(g_upstream_node_mode) s.(stop_flag) s.(uv_script) s.(task_queue)
    s.(tokens) s.(trace).

Definition set_idle_timer_ (v : TimerState) (s : State) : State :=
  mkState s.(is_browser_) s.(message_loop_) s.(embed_closed_) s.(embed_sem_) v
    s.(dummy_uv_handle_) s.(async_pending) s.(global_env) s.(g_standalone_mode)
    s.(g_upstream_node_mode) s.(stop_flag) s.(uv_script) s.(task_queue)
    s.(tokens) s.(trace).

Definition set_dummy_uv_handle_ (v : bool) (s : State) : State :=
  mkState s.(is_browser_) s.(message_loop_) s.(embed_closed_) s.(embed_sem_)
    s.(idle_timer_) v s.(async_pending) s.(global_env) s.(g_standalone_mode)
    s.(g_upstream_node_mode) s.(stop_flag) s.(uv_script) s.(task_queue)
    s.(tokens) s.(trace).

Definition set_async_pending (v : bool) (s : State) : State :=
  mkState s.(is_browser_) s.(message_loop_) s.(embed_closed_) s.(embed_sem_)
    s.(idle_timer_) s.(dummy_uv_handle_) v s.(global_env) s.(g_standalone_mode)
    s.(g_upstream_node_mode) s.(stop_flag) s.(uv_script) s.(task_queue)
    s.(tokens) s.(trace).

Definition set_global_env (v : option Environment) (s : State) : State :=
  mkState s.(is_browser_) s.(message_loop_) s.(embed_closed_) s.(embed_sem_)
    s.(idle_timer_) s.(dummy_uv_handle_) s.(async_pending) v s.(g_standalone_mode)
    s.(g_upstream_node_mode) s.(stop_flag) s.(uv_script) s.(task_queue)
    s.(tokens) s.(trace).

Definition set_g_standalone_mode (v : bool) (s : State) : State :=
  mkState s.(is_browser_) s.(message_loop_) s.(embed_closed_) s.(embed_sem_)
    s.(idle_timer_) s.(dummy_uv_handle_) s.(async_pending) s.(global_env) v
    s.(g_upstream_node_mode) s.(stop_flag) s.(uv_script) s.(task_queue)
    s.(tokens) s.(trace).

Definition set_g_upstream_node_mode (v : bool) (s : State) : State :=
  mkState s.(is_browser_) s.(message_loop_) s.(embed_closed_) s.(embed_sem_)
    s.(idle_timer_) s.(dummy_uv_handle_) s.(async_pending) s.(global_env)
    s.(g_standalone_mode) v s.(stop_flag) s.(uv_script) s.(task_queue)
    s.(tokens) s.(trace).

Definition set_uv (flag : Z) (script : list (Z * Z)) (s : State) : State :=
  mkState s.(is_browser_) s.(message_loop_) s.(embed_closed_) s.(embed_sem_)
    s.(idle_timer_) s.(dummy_uv_handle_) s.(async_pending) s.(global_env)
    s.(g_standalone_mode) s.(g_upstream_node_mode) flag script s.(task_queue)
    s.(tokens) s.(trace).

Definition set_task_queue (v : list Task) (s : State) : State :=
  mkState s.(is_browser_) s.(message_loop_) s.(embed_closed_) s.(embed_sem_)
    s.(idle_timer_) s.(dummy_uv_handle_) s.(async_pending) s.(global_env)
    s.(g_standalone_mode) s.(g_upstream_node_mode) s.(stop_flag) s.(uv_script) v
    s.(tokens) s.(trace).

Definition set_tokens (v : list (ContextId * SecurityToken)) (s : State) : State :=
  mkState s.(is_browser_) s.(message_loop_) s.(embed_closed_) s.(embed_sem_)
    s.(idle_timer_) s.(dummy_uv_handle_) s.(async_pending) s.(global_env)
    s.(g_standalone_mode) s.(g_upstream_node_mode) s.(stop_flag) s.(uv_script)
    s.(task_queue) v s.(trace).

Definition set_trace (v : list Event) (s : State) : State :=
  mkState s.(is_browser_) s.(message_loop_) s.(embed_closed_) s.(embed_sem_)
    s.(idle_timer_) s.(dummy_uv_handle_) s.(async_pending) s.(global_env)
    s.(g_standalone_mode) s.(g_upstream_node_mode) s.(stop_flag) s.(uv_script)
    s.(task_queue) s.(tokens) v.

(** [NodeBindings::NodeBindings(is_browser)], in a process where nothing of
    the file has run yet.  The members the constructor does not
    initialise are given their inert values, and node's two switches the
    values opposite to the ones [Initialize] stores in the privileged
    role, so that the examples show the writes. *)
Definition NodeBindings_new (is_browser : bool) : State :=
  {| is_browser_ := is_browser;
     message_loop_ := None;
     embed_closed_ := false;
     embed_sem_ := None;
     idle_timer_ := TimerUninitialized;
     dummy_uv_handle_ := false;
     async_pending := false;
     global_env := None;
     g_standalone_mode := false;
     g_upstream_node_mode := true;
     stop_flag := 0%Z;
     uv_script := [];
     task_queue := [];
     tokens := [];
     trace := [] |}.

(** ** A state monad with faults *)

Definition M (A : Type) : Type := State -> Result (A * State).

Definition ret {A} (a : A) : M A := fun s => Ok (a, s).

Definition bind {A B} (m : M A) (k : A -> M B) : M B :=
  fun s => match m s with
           | Ok (a, s') => k a s'
           | Crash f => Crash f
           end.

Definition crash {A} (f : Fault) : M A := fun _ => Crash f.
Definition get : M State := fun s => Ok (s, s).
Definition modify (f : State -> State) : M unit := fun s => Ok (tt, f s).
Definition emit (e : Event) : M unit :=
  modify (fun s => set_trace (s.(trace) ++ [e]) s).

(** Dereference of a pointer that may be [NULL]. *)
Definition deref {A} (what : string) (p : option A) : M A :=
  match p with
  | Some a => ret a
  | None => crash (NullDeref what)
  end.

(** Use of a libuv object that must be initialised and not yet destroyed. *)
Definition valid {A} (what : string) (p : option A) : M A :=
  match p with
  | Some a => ret a
  | None => crash (InvalidHandle what)
  end.

Notation "x <- c1 ;; c2" := (bind c1 (fun x => c2))
  (at level 61, c1 at next level, right associativity).
Notation "c1 ;; c2" := (bind c1 (fun _ => c2))
  (at level 61, right associativity).

Definition when (b : bool) (m : M unit) : M unit := if b then m else ret tt.

(** ** The collaborators

    What the file calls and does not define: chromium's [base] and [net],
    GURL and node.  The methods are written against this interface;
    [posix_host] further down is an instance to run them on. *)
Class Host : Type := {
  os : OS;
  UTF16ToUTF8 : wstring -> string;
  FilePath : Type;
  FilePath_new : StringType os -> FilePath;
  (** [PathService::Get(base::FILE_EXE, &p)]: the path written to [p], or
      [None] when the call fails and leaves [p] as it was. *)
  PathService_Get_FILE_EXE : option FilePath;
  DirName : FilePath -> FilePath;
  Append : FilePath -> string -> FilePath;
  AppendASCII : FilePath -> string -> FilePath;
  AsUTF8Unsafe : FilePath -> string;
  (** [node::Init]: [argv] as it leaves it, and the execution arguments. *)
  node_Init : list string -> list string * list string;
  CreateEnvironment : list string -> list string -> Environment;
  GURL_path : string -> string;
  UnescapeURLComponent : string -> Z -> string
}.

(** [net::UnescapeRule]. *)
Module UnescapeRule.
Definition NORMAL : Z := 0.
Definition SPACES : Z := 1.
Definition URL_SPECIAL_CHARS : Z := 2.
Definition CONTROL_CHARS : Z := 4.
Definition REPLACE_PLUS_WITH_SPACE : Z := 8.
End UnescapeRule.

(** [v.insert(v.begin() + pos, x)]; a position past the end is undefined. *)
Definition vector_insert {A} (pos : nat) (x : A) (v : list A) : M (list A) :=
  if pos <=? length v
  then ret (firstn pos v ++ x :: skipn pos v)
  else crash (OutOfRange "vector::insert").

(** [v[i]]. *)
Definition vector_at {A} (what : string) (v : list A) (i : nat) : M A :=
  match nth_error v i with
  | Some a => ret a
  | None => crash (OutOfRange what)
  end.

Section Methods.
Context {H : Host}.

(** The conversion of the argument loop of [Initialize]: [UTF16ToUTF8]
    under [OS_WIN], the bytes as they are otherwise. *)
Definition arg_to_utf8 : StringType os -> string :=
  match os as o return StringType o -> string with
  | OS_WIN => UTF16ToUTF8
  | OS_MACOSX => fun s => s
  | OS_POSIX => fun s => s
  end.

Definition resources_path_of (is_browser : bool) (exec_path : FilePath) : FilePath :=
  match os with
  | OS_MACOSX =>
      if is_browser
      then Append (DirName (DirName exec_path)) "Resources"
      else Append (DirName (DirName (DirName (DirName (DirName exec_path)))))
                  "Resources"
  | _ => Append (DirName exec_path) "resources"
  end.

Definition script_path_of (is_browser : bool) (exec_path : FilePath) : FilePath :=
  AppendASCII
    (AppendASCII (AppendASCII (resources_path_of is_browser exec_path) "browser")
                 "atom")
    (if is_browser then "atom.js" else "atom-renderer.js").

(** [NodeBindings::Initialize], with [str_argv] the argument vector of the
    current process. *)
Definition Initialize (str_argv : list (StringType os)) : M unit :=
  let args := map arg_to_utf8 str_argv in
  argv0 <- vector_at "str_argv[0]" str_argv 0 ;;
  let exec_path :=
    match PathService_Get_FILE_EXE with
    | Some p => p
    | None => FilePath_new argv0
    end in
  self <- get ;;
  let script_path_str := AsUTF8Unsafe (script_path_of self.(is_browser_) exec_path) in
  args <- vector_insert 1 script_path_str args ;;
  when self.(is_browser_)
    (emit EvTimerInit ;;
     modify (set_idle_timer_ TimerInitialized) ;;
     emit (EvTimerStart 5000 5000) ;;
     modify (set_idle_timer_ (TimerActive 5000 5000))) ;;
  modify (set_g_standalone_mode self.(is_browser_)) ;;
  modify (set_g_upstream_node_mode false) ;;
  emit (EvNodeInit args) ;;
  let argv := fst (node_Init args) in
  emit EvV8Initialize ;;
  emit (EvCreateEnvironment argv argv) ;;
  modify (set_global_env (Some (CreateEnvironment argv argv))).

Fixpoint set_token (c : ContextId) (t : SecurityToken)
  (l : list (ContextId * SecurityToken)) : list (ContextId * SecurityToken) :=
  match l with
  | [] => [(c, t)]
  | (c', t') :: r => if c' =? c then (c, t) :: r else (c', t') :: set_token c t r
  end.

Fixpoint get_token (c : ContextId) (l : list (ContextId * SecurityToken))
  : SecurityToken :=
  match l with
  | [] => 0%Z
  | (c', t') :: r => if c' =? c then t' else get_token c r
  end.

(** [NodeBindings::BindTo]. *)
Definition BindTo (frame : WebFrame) : M unit :=
  match frame.(mainWorldScriptContext) with
  | None => ret tt
  | Some context =>
      emit (EvEnterContext context) ;;
      s <- get ;;
      env <- deref "global_env" s.(global_env) ;;
      let tok := get_token env.(env_context) s.(tokens) in
      emit (EvSetSecurityToken context tok) ;;
      modify (fun s => set_tokens (set_token context tok s.(tokens)) s) ;;
      emit EvCompileCefodeMainSource ;;
      emit EvScriptRun ;;
      let script_path :=
        UnescapeURLComponent (GURL_path frame.(document_url))
          (Z.lor UnescapeRule.SPACES UnescapeRule.URL_SPECIAL_CHARS) in
      s <- get ;;
      env <- deref "global_env" s.(global_env) ;;
      emit (EvCall (VGlobal context)
                   [env.(env_process_object); VString script_path])
  end.

End Methods.

(** ** The loop pump: the main-thread methods *)

(** [uv_run(uv_loop_, UV_RUN_ONCE | UV_RUN_NOWAIT)] on the simulated loop:
    the callbacks of everything that is ready run, so no wake-up stays
    pending. *)
Definition uv_run : M Z :=
  s <- get ;;
  modify (set_async_pending false) ;;
  match s.(uv_script) with
  | [] => emit (EvUvRun 1) ;; ret 1%Z
  | (r, flag) :: rest =>
      modify (set_uv flag rest) ;; emit (EvUvRun r) ;; ret r
  end.

(** [uv_sem_post]; the semaphore must be between [uv_sem_init] and
    [uv_sem_destroy]. *)
Definition uv_sem_post : M unit :=
  s <- get ;;
  n <- valid "embed_sem_" s.(embed_sem_) ;;
  modify (set_embed_sem_ (Some (S n))) ;;
  emit EvSemPost.

(** [UvRunOnce] up to its last statement. *)
Definition UvRunOnce_pump : M unit :=
  s <- get ;;
  env <- deref "global_env" s.(global_env) ;;
  emit (EvEnterContext env.(env_context)) ;;
  r <- uv_run ;;
  s <- get ;;
  when ((r =? 0)%Z || negb (s.(stop_flag) =? 0)%Z)
    (_ <- deref "message_loop_" s.(message_loop_) ;; emit EvQuitWhenIdle).

(** [NodeBindings::UvRunOnce]. *)
Definition UvRunOnce : M unit :=
  UvRunOnce_pump ;; uv_sem_post.

(** [NodeBindings::WakeupMainThread]; the [DCHECK] is compiled out of
    release builds, the dereference is not. *)
Definition WakeupMainThread : M unit :=
  s <- get ;;
  _ <- deref "message_loop_" s.(message_loop_) ;;
  modify (fun s => set_task_queue (s.(task_queue) ++ [TaskUvRunOnce]) s) ;;
  emit EvPostTask.

(** [NodeBindings::WakeupEmbedThread]. *)
Definition WakeupEmbedThread : M unit :=
  modify (set_async_pending true) ;; emit EvAsyncSend.

(** [NodeBindings::PrepareMessageLoop] up to [uv_thread_create]. *)
Definition PrepareMessageLoop_init : M unit :=
  emit EvAsyncInit ;;
  modify (set_dummy_uv_handle_ true) ;;
  emit (EvSemInit 0) ;;
  modify (set_embed_sem_ (Some 0)).

(** The first statement of [RunMessageLoop]: the loop of the calling
    thread, which the comment there says exists by now. *)
Definition RunMessageLoop_capture : M unit :=
  modify (set_message_loop_ (Some MainThreadLoop)).

(** [uv_timer_stop]: the handle must have been through [uv_timer_init];
    on one that is not active the call returns at once. *)
Definition uv_timer_stop : M unit :=
  s <- get ;;
  match s.(idle_timer_) with
  | TimerUninitialized => crash (InvalidHandle "idle_timer_")
  | TimerActive _ _ =>
      emit EvTimerStop ;; modify (set_idle_timer_ TimerStopped)
  | TimerInitialized | TimerStopped => emit EvTimerStop
  end.

Definition uv_sem_destroy : M unit :=
  s <- get ;;
  _ <- valid "embed_sem_" s.(embed_sem_) ;;
  modify (set_embed_sem_ None) ;;
  emit EvSemDestroy.

Definition timer_running (s : State) : bool :=
  match s.(idle_timer_) with TimerActive _ _ => true | _ => false end.

(** ** The two threads

    The main thread runs the methods statement by statement; the embed
    thread runs [EmbedThreadRunner].  A schedule picks which one moves. *)

(** Where [EmbedThreadRunner] stands. *)
Inductive EmbedPc : Type :=
| E_NotStarted
| E_LoopTest      (* at [while (!self->embed_closed_)] *)
| E_SemWait       (* at [uv_sem_wait] *)
| E_Polling       (* inside [PollEvents] *)
| E_Wakeup        (* at [WakeupMainThread] *)
| E_Exited.

(** The statements of the main-thread methods that touch what the embed
    thread can see. *)
Inductive MainOp : Type :=
| OpPrepare
| OpCapture
| OpPump
| OpSemPost
| OpSetClosed
| OpAsyncSend
| OpJoin
| OpRunUntilIdle
| OpDrain
| OpSemDestroy
| OpTimerStop.

Definition PrepareMessageLoop_ops : list MainOp := [OpPrepare].
Definition RunMessageLoop_ops : list MainOp := [OpCapture; OpPump; OpSemPost].
Definition UvRunOnce_ops : list MainOp := [OpPump; OpSemPost].

(** [NodeBindings::~NodeBindings]. *)
Definition Destroy_ops : list MainOp :=
  [OpSetClosed; OpSemPost; OpAsyncSend; OpJoin; OpRunUntilIdle; OpSemDestroy;
   OpTimerStop].

(** How far the host is in its use of the object. *)
Inductive Phase : Type := Constructed | Prepared | Running | Destroyed.

Record System : Type := mkSystem {
  st : State;
  embed_pc : EmbedPc;
  main_pc : list MainOp;
  phase : Phase;
  io_ready : bool
}.

Inductive HostCall : Type :=
| CallPrepareMessageLoop
| CallRunMessageLoop
| CallRunTask
| CallDestroy.

Inductive Label : Type :=
| L_Host (c : HostCall)   (* the idle main thread enters a method *)
| L_Main                  (* the main thread runs its next statement *)
| L_Embed                 (* the embed thread runs its next statement *)
| L_Io.                   (* the kernel marks a descriptor of the loop ready *)

Inductive Outcome : Type :=
| Step (sys : System)
| Blocked
| Faulted (f : Fault).

(** Run a statement on the shared state and move the main thread on. *)
Definition main_do (sys : System) (m : M unit) (rest : list MainOp) : Outcome :=
  match m sys.(st) with
  | Ok (_, s) => Step (mkSystem s sys.(embed_pc) rest sys.(phase) sys.(io_ready))
  | Crash f => Faulted f
  end.

Definition embed_do (sys : System) (m : M unit) (pc : EmbedPc) : Outcome :=
  match m sys.(st) with
  | Ok (_, s) => Step (mkSystem s pc sys.(main_pc) sys.(phase) sys.(io_ready))
  | Crash f => Faulted f
  end.

Definition main_step (sys : System) : Outcome :=
  match sys.(main_pc) with
  | [] => Blocked
  | OpPrepare :: rest =>
      match (PrepareMessageLoop_init ;; emit EvThreadCreate) sys.(st) with
      | Ok (_, s) => Step (mkSystem s E_LoopTest rest sys.(phase) sys.(io_ready))
      | Crash f => Faulted f
      end
  | OpCapture :: rest => main_do sys RunMessageLoop_capture rest
  | OpPump :: rest =>
      match UvRunOnce_pump sys.(st) with
      | Ok (_, s) => Step (mkSystem s sys.(embed_pc) rest sys.(phase) false)
      | Crash f => Faulted f
      end
  | OpSemPost :: rest => main_do sys uv_sem_post rest
  | OpSetClosed :: rest =>
      main_do sys (modify (set_embed_closed_ true) ;; emit EvSetClosed) rest
  | OpAsyncSend :: rest => main_do sys WakeupEmbedThread rest
  | OpJoin :: rest =>
      match sys.(embed_pc) with
      | E_Exited => main_do sys (emit EvThreadJoin) rest
      | _ => Blocked
      end
  | OpRunUntilIdle :: rest =>
      main_do sys
        (s <- get ;;
         _ <- deref "message_loop_" s.(message_loop_) ;;
         emit EvRunUntilIdle)
        (OpDrain :: rest)
  | OpDrain :: rest =>
      match sys.(st).(task_queue) with
      | [] => main_do sys (ret tt) rest
      | TaskUvRunOnce :: q =>
          main_do sys (modify (set_task_queue q)) (UvRunOnce_ops ++ OpDrain :: rest)
      end
  | OpSemDestroy :: rest => main_do sys uv_sem_destroy rest
  | OpTimerStop :: rest => main_do sys uv_timer_stop rest
  end.

(** [EmbedThreadRunner], one statement at a time. *)
Definition embed_step (sys : System) : Outcome :=
  match sys.(embed_pc) with
  | E_NotStarted => Blocked
  | E_LoopTest =>
      embed_do sys (ret tt)
        (if sys.(st).(embed_closed_) then E_Exited else E_SemWait)
  | E_SemWait =>
      match sys.(st).(embed_sem_) with
      | None => Faulted (InvalidHandle "embed_sem_")
      | Some O => Blocked
      | Some (S n) =>
          embed_do sys
            (modify (set_embed_sem_ (Some n)) ;; emit EvSemWait ;; emit EvPollEvents)
            E_Polling
      end
  | E_Polling =>
      if sys.(st).(async_pending) || sys.(io_ready)
      then embed_do sys (ret tt) E_Wakeup
      else Blocked
  | E_Wakeup => embed_do sys WakeupMainThread E_LoopTest
  | E_Exited => Blocked
  end.

(** The host calls a method only when the main thread is between tasks, and
    in the order construct, prepare, run, destroy. *)
Definition host_step (c : HostCall) (sys : System) : Outcome :=
  match sys.(main_pc) with
  | _ :: _ => Blocked
  | [] =>
      match c, sys.(phase) with
      | CallPrepareMessageLoop, Constructed =>
          Step (mkSystem sys.(st) sys.(embed_pc) PrepareMessageLoop_ops Prepared
                         sys.(io_ready))
      | CallRunMessageLoop, Prepared =>
          Step (mkSystem sys.(st) sys.(embed_pc) RunMessageLoop_ops Running
                         sys.(io_ready))
      | CallRunTask, Running =>
          match sys.(st).(task_queue) with
          | [] => Blocked
          | TaskUvRunOnce :: q =>
              Step (mkSystem (set_task_queue q sys.(st)) sys.(embed_pc)
                             UvRunOnce_ops Running sys.(io_ready))
          end
      | CallDestroy, Running =>
          Step (mkSystem sys.(st) sys.(embed_pc) Destroy_ops Destroyed
                         sys.(io_ready))
      | _, _ => Blocked
      end
  end.

Definition sys_step (l : Label) (sys : System) : Outcome :=
  match l with
  | L_Host c => host_step c sys
  | L_Main => main_step sys
  | L_Embed => embed_step sys
  | L_Io =>
      Step (mkSystem sys.(st) sys.(embed_pc) sys.(main_pc) sys.(phase) true)
  end.

(** Run a schedule; a label that is not enabled ends it. *)
Fixpoint exec (ls : list Label) (sys : System) : Outcome :=
  match ls with
  | [] => Step sys
  | l :: r =>
      match sys_step l sys with
      | Step sys' => exec r sys'
      | o => o
      end
  end.

Definition System_new (s : State) : System :=
  mkSystem s E_NotStarted [] Constructed false.

(** ** A concrete host

    Instances of the collaborators for the narrow-string platforms, so that
    the methods can be run on the scenarios of the specification. *)
Module Concrete.

Open Scope Z_scope.

Definition byte_char (b : Z) : ascii := ascii_of_N (Z.to_N (Z.land b 255)).

(** Modelled from the spec: wide-character arguments are converted to UTF-8;
    [UTF16ToUTF8] itself is chromium's.  Surrogate pairs are combined, a
    lone surrogate becomes U+FFFD. *)
Fixpoint utf16_bytes (w : wstring) : list Z :=
  match w with
  | [] => []
  | u :: r =>
      if u <? 128 then u :: utf16_bytes r
      else if u <? 2048 then
        Z.lor 192 (Z.shiftr u 6) :: Z.lor 128 (Z.land u 63) :: utf16_bytes r
      else if (55296 <=? u) && (u <? 56320) then
        match r with
        | lo :: r' =>
            if (56320 <=? lo) && (lo <? 57344) then
              let cp := 65536 + Z.shiftl (u - 55296) 10 + (lo - 56320) in
              Z.lor 240 (Z.shiftr cp 18)
              :: Z.lor 128 (Z.land (Z.shiftr cp 12) 63)
              :: Z.lor 128 (Z.land (Z.shiftr cp 6) 63)
              :: Z.lor 128 (Z.land cp 63) :: utf16_bytes r'
            else 239 :: 191 :: 189 :: utf16_bytes r
        | [] => [239; 191; 189]
        end
      else if (56320 <=? u) && (u <? 57344) then
        239 :: 191 :: 189 :: utf16_bytes r
      else
        Z.lor 224 (Z.shiftr u 12)
        :: Z.lor 128 (Z.land (Z.shiftr u 6) 63)
        :: Z.lor 128 (Z.land u 63) :: utf16_bytes r
  end.

Definition utf16_to_utf8 (w : wstring) : string :=
  string_of_list_ascii (map byte_char (utf16_bytes w)).

Definition is_char (c d : ascii) : bool := Ascii.eqb c d.

Fixpoint drop_through_colon (l : list ascii) : list ascii :=
  match l with
  | [] => []
  | c :: r => if is_char c ":" then r else drop_through_colon r
  end.

Fixpoint drop_authority (l : list ascii) : list ascii :=
  match l with
  | [] => []
  | c :: r =>
      if is_char c "/" || is_char c "?" || is_char c "#" then l
      else drop_authority r
  end.

Fixpoint take_path (l : list ascii) : list ascii :=
  match l with
  | [] => []
  | c :: r => if is_char c "?" || is_char c "#" then [] else c :: take_path r
  end.

(** Modelled from the spec: the path component of the document URL, for a
    URL of the shape [scheme://authority/path?query#fragment] that is
    already canonical; GURL itself is chromium's. *)
Definition url_path (url : string) : string :=
  match drop_through_colon (list_ascii_of_string url) with
  | "/"%char :: "/"%char :: r =>
      match take_path (drop_authority r) with
      | [] => "/"
      | p => string_of_list_ascii p
      end
  | r => string_of_list_ascii (take_path r)
  end.

Definition hex_digit (c : ascii) : option Z :=
  let n := Z.of_N (N_of_ascii c) in
  if (48 <=? n) && (n <=? 57) then Some (n - 48)
  else if (65 <=? n) && (n <=? 70) then Some (n - 55)
  else if (97 <=? n) && (n <=? 102) then Some (n - 87)
  else None.

(** The 7-bit characters that are unescaped whatever the rules. *)
Definition kUrlUnescape (v : Z) : bool :=
  (32 <? v) && (v <? 127)
  && negb (existsb (Z.eqb v) [33; 35; 36; 37; 38; 43; 47; 58; 59; 61; 63; 64]).

Definition has_rule (rules rule : Z) : bool := negb (Z.land rules rule =? 0).

Definition unescapes (rules v : Z) : bool :=
  (128 <=? v)
  || kUrlUnescape v
  || ((v =? 32) && has_rule rules UnescapeRule.SPACES)
  || ((32 <? v) && has_rule rules UnescapeRule.URL_SPECIAL_CHARS)
  || ((v <? 32) && has_rule rules UnescapeRule.CONTROL_CHARS).

Fixpoint unescape_chars (rules : Z) (l : list ascii) : list ascii :=
  match l with
  | [] => []
  | c :: r =>
      match r with
      | h :: (lo :: r') as r1 =>
          if is_char c "%" then
            match hex_digit h, hex_digit lo with
            | Some a, Some b =>
                if unescapes rules (16 * a + b)
                then byte_char (16 * a + b) :: unescape_chars rules r'
                else c :: h :: unescape_chars rules r1
            | _, _ => c :: unescape_chars rules r
            end
          else if is_char c "+" && has_rule rules UnescapeRule.REPLACE_PLUS_WITH_SPACE
          then " "%char :: unescape_chars rules r
          else c :: unescape_chars rules r
      | _ =>
          if is_char c "+" && has_rule rules UnescapeRule.REPLACE_PLUS_WITH_SPACE
          then " "%char :: unescape_chars rules r
          else c :: unescape_chars rules r
      end
  end.

(** Modelled from the spec: URL-decoding under the given rules, the escapes
    of spaces and of URL-special characters being decoded when their rule is
    set; [net::UnescapeURLComponent] itself is chromium's. *)
Definition unescape_url_component (s : string) (rules : Z) : string :=
  string_of_list_ascii (unescape_chars rules (list_ascii_of_string s)).

(** The environment lives in context 0; its process object records the
    argument vectors it was created with. *)
Definition create_environment (argv exec_argv : list string) : Environment :=
  {| env_context := 0%nat; env_process_object := VProcessObject argv exec_argv |}.

(** A host with narrow strings: POSIX paths, the executable path [exe] as
    the path service reports it, and a [node::Init] that finds no option to
    take out of the vector. *)
#[local] Instance narrow_host (o : OS) (narrow : StringType o = string)
  (exe : option string) : Host :=
  {| os := o;
     UTF16ToUTF8 := utf16_to_utf8;
     FilePath := string;
     FilePath_new := fun s => eq_rect _ (fun T : Type => T) s _ narrow;
     PathService_Get_FILE_EXE := exe;
     DirName := PosixPath.DirName;
     Append := PosixPath.Append;
     AppendASCII := PosixPath.Append;
     AsUTF8Unsafe := fun p => p;
     node_Init := fun argv => (argv, []);
     CreateEnvironment := create_environment;
     GURL_path := url_path;
     UnescapeURLComponent := unescape_url_component |}.

Definition posix_host : option string -> Host := narrow_host OS_POSIX eq_refl.
Definition mac_host : option string -> Host := narrow_host OS_MACOSX eq_refl.

End Concrete.

(** * What is proved about the core: definitions *)

(** ** Reading traces *)

(** The argument vectors [node::Init] was called with. *)
Fixpoint node_init_argvs (tr : list Event) : list (list string) :=
  match tr with
  | [] => []
  | EvNodeInit argv :: r => argv :: node_init_argvs r
  | _ :: r => node_init_argvs r
  end.

Definition is_quit (e : Event) : bool :=
  match e with EvQuitWhenIdle => true | _ => false end.

Definition count_quit (tr : list Event) : nat := length (filter is_quit tr).

(** The outcome of the coming [uv_run]: what it returns and [stop_flag]
    after it. *)
Definition next_uv (s : State) : Z * Z :=
  match s.(uv_script) with
  | [] => (1%Z, s.(stop_flag))
  | o :: _ => o
  end.

Definition quits (s : State) : bool :=
  (fst (next_uv s) =? 0)%Z || negb (snd (next_uv s) =? 0)%Z.

(** ** What [Initialize] computes *)

Section InitializeDefs.
Context {H : Host}.

(** The path [Initialize] takes for the executable. *)
Definition exec_path_of (argv0 : StringType os) : FilePath :=
  match PathService_Get_FILE_EXE with
  | Some p => p
  | None => FilePath_new argv0
  end.

Definition entry_script (is_browser : bool) (argv0 : StringType os) : string :=
  AsUTF8Unsafe (script_path_of is_browser (exec_path_of argv0)).

(** What [Initialize] leaves behind on a non-empty argument vector. *)
Definition Initialize_post (a0 : StringType os) (rest : list (StringType os))
  (s : State) : State :=
  let b := s.(is_browser_) in
  let args := arg_to_utf8 a0 :: entry_script b a0 :: map arg_to_utf8 rest in
  let argv := fst (node_Init args) in
  let s1 := if b
            then set_idle_timer_ (TimerActive 5000 5000)
                   (set_trace (s.(trace) ++ [EvTimerInit; EvTimerStart 5000 5000]) s)
            else s in
  set_global_env (Some (CreateEnvironment argv argv))
    (set_g_upstream_node_mode false
      (set_g_standalone_mode b
        (set_trace (s1.(trace) ++ [EvNodeInit args; EvV8Initialize;
                                   EvCreateEnvironment argv argv]) s1))).

End InitializeDefs.

(** ** The rule for the resources directory *)

(** The rule for the resources directory in the words of the
    specification: each [/..] is one step to the parent, the last component
    is appended. *)
Definition parent (H : Host) (n : nat) (p : FilePath) : FilePath :=
  Nat.iter n DirName p.

Definition spec_resources_path (H : Host) (is_browser : bool) (exe : FilePath)
  : FilePath :=
  match os with
  | OS_MACOSX =>
      if is_browser then Append (parent H 2 exe) "Resources"
      else Append (parent H 5 exe) "Resources"
  | _ => Append exe "resources"
  end.

(** The same with the step to the parent that the code takes on the other
    platforms as well. *)
Definition amended_resources_path (H : Host) (is_browser : bool) (exe : FilePath)
  : FilePath :=
  match os with
  | OS_MACOSX =>
      if is_browser then Append (parent H 2 exe) "Resources"
      else Append (parent H 5 exe) "Resources"
  | _ => Append (parent H 1 exe) "resources"
  end.

Definition entry_script_name (is_browser : bool) : string :=
  if is_browser then "atom.js" else "atom-renderer.js".

(** C4 as the specification states it. *)
Definition standalone_for_every_role : Prop :=
  forall (H : Host) (str_argv : list (StringType os)) (s s' : State),
    Initialize str_argv s = Ok (tt, s') ->
    s'.(g_standalone_mode) = true /\ s'.(g_upstream_node_mode) = false.

(** C5 as the specification states it. *)
Definition resources_rule_as_specified : Prop :=
  forall (H : Host) (is_browser : bool) (exe : FilePath),
    resources_path_of is_browser exe = spec_resources_path H is_browser exe.

(** ** What [BindTo] does *)

Section BindToDefs.
Context {H : Host}.

(** The second argument of the bootstrap call. *)
Definition script_path_arg (frame : WebFrame) : string :=
  UnescapeURLComponent (GURL_path frame.(document_url))
    (Z.lor UnescapeRule.SPACES UnescapeRule.URL_SPECIAL_CHARS).

(** The calls [BindTo] makes on a context [c] with the environment [env]. *)
Definition BindTo_events (frame : WebFrame) (c : ContextId) (env : Environment)
  (s : State) : list Event :=
  [EvEnterContext c;
   EvSetSecurityToken c (get_token env.(env_context) s.(tokens));
   EvCompileCefodeMainSource;
   EvScriptRun;
   EvCall (VGlobal c) [env.(env_process_object); VString (script_path_arg frame)]].

Definition BindTo_post (frame : WebFrame) (c : ContextId) (env : Environment)
  (s : State) : State :=
  set_trace (s.(trace) ++ BindTo_events frame c env s)
    (set_tokens (set_token c (get_token env.(env_context) s.(tokens)) s.(tokens)) s).

End BindToDefs.

(** ** One turn of the pump *)

Definition UvRunOnce_pump_post (env : Environment) (s : State) : State :=
  set_trace
    (s.(trace)
     ++ [EvEnterContext env.(env_context); EvUvRun (fst (next_uv s))]
     ++ (if quits s then [EvQuitWhenIdle] else []))
    (set_uv (snd (next_uv s)) (tl s.(uv_script)) (set_async_pending false s)).

(** ** Schedules of the two threads *)

Definition is_post_task (e : Event) : bool :=
  match e with EvPostTask => true | _ => false end.

(** How often [WakeupMainThread] posted a task. *)
Definition count_post (tr : list Event) : nat := length (filter is_post_task tr).

(** The calls of the embed thread; every other event is the main thread's. *)
Definition is_embed_event (e : Event) : bool :=
  match e with
  | EvSemWait | EvPollEvents | EvPostTask => true
  | _ => false
  end.

Definition main_events (tr : list Event) : list Event :=
  filter (fun e => negb (is_embed_event e)) tr.

(** The pumps ([true], one per [uv_run]) and the polls ([false], one per
    [PollEvents]) of a trace, in order. *)
Fixpoint pump_poll (tr : list Event) : list bool :=
  match tr with
  | [] => []
  | EvUvRun _ :: r => true :: pump_poll r
  | EvPollEvents :: r => false :: pump_poll r
  | _ :: r => pump_poll r
  end.

(** No two neighbours are the same: between two pumps there is a poll and
    between two polls a pump. *)
Fixpoint alternating (l : list bool) : bool :=
  match l with
  | a :: (b :: _) as r => negb (Bool.eqb a b) && alternating r
  | _ => true
  end.

(** A core on which nothing of the loop integration has run yet. *)
Definition fresh (s : State) : Prop :=
  s.(embed_closed_) = false
  /\ s.(embed_sem_) = None
  /\ s.(message_loop_) = None
  /\ s.(task_queue) = []
  /\ pump_poll s.(trace) = [].

(** The destructor has just set [embed_closed_] and the embed thread is
    inside [PollEvents]. *)
Definition destroyed_mid_poll (sys : System) : Prop :=
  sys.(embed_pc) = E_Polling
  /\ sys.(main_pc) = tl Destroy_ops
  /\ sys.(phase) = Destroyed
  /\ sys.(st).(embed_closed_) = true.

(** C3 as the specification states it: from there the thread reaches its
    exit without a further [WakeupMainThread]. *)
Definition final_poll_posts_no_task : Prop :=
  forall (s0 : State) (ls0 ls : list Label) (sys sys' : System),
    fresh s0 ->
    exec ls0 (System_new s0) = Step sys ->
    destroyed_mid_poll sys ->
    exec ls sys = Step sys' ->
    sys'.(embed_pc) = E_Exited ->
    count_post sys'.(st).(trace) = count_post sys.(st).(trace).

(** C2 as the specification states it. *)
Definition pump_poll_alternate_always : Prop :=
  forall (s0 : State) (ls : list Label) (sys : System),
    fresh s0 ->
    exec ls (System_new s0) = Step sys ->
    alternating (pump_poll sys.(st).(trace)) = true.

(** ** The last cycle of the embed thread *)

(** Once [embed_closed_] is set with the thread inside [PollEvents], the
    thread has posted [base] tasks until it calls [WakeupMainThread], and
    one more from then on. *)
Definition final_cycle (base : nat) (sys : System) : Prop :=
  sys.(phase) = Destroyed
  /\ ~ In OpPrepare sys.(main_pc)
  /\ sys.(st).(embed_closed_) = true
  /\ match sys.(embed_pc) with
     | E_Polling | E_Wakeup => count_post sys.(st).(trace) = base
     | E_LoopTest | E_Exited => count_post sys.(st).(trace) = S base
     | E_NotStarted | E_SemWait => False
     end.

(** ** The cycle of pump and poll *)

(** Pumps and polls alternate and a pump comes first. *)
Definition pump_first (l : list bool) : bool := alternating l && hd true l.

(** The trace is in order and stays so if a pump ([p] true) or a poll ([p]
    false) comes next. *)
Definition next_is (p : bool) (tr : list Event) : Prop :=
  pump_first (pump_poll tr ++ [p]) = true.

(** The embed thread is between [WakeupMainThread] and the return of
    [uv_sem_wait]. *)
Definition waiting (pc : EmbedPc) : Prop := pc = E_LoopTest \/ pc = E_SemWait.

(** The embed thread is between the return of [uv_sem_wait] and
    [WakeupMainThread]. *)
Definition polling (pc : EmbedPc) : Prop := pc = E_Polling \/ pc = E_Wakeup.

(** The main thread is between two methods: the pump has posted the
    semaphore, or the poll is under way, or the task of the poll is
    queued. *)
Definition between_tasks (sys : System) : Prop :=
  (waiting sys.(embed_pc) /\ sys.(st).(embed_sem_) = Some 1
   /\ sys.(st).(task_queue) = [] /\ next_is false sys.(st).(trace))
  \/ (polling sys.(embed_pc) /\ sys.(st).(embed_sem_) = Some 0
      /\ sys.(st).(task_queue) = [] /\ next_is true sys.(st).(trace))
  \/ (waiting sys.(embed_pc) /\ sys.(st).(embed_sem_) = Some 0
      /\ sys.(st).(task_queue) = [TaskUvRunOnce] /\ next_is true sys.(st).(trace)).

(** The main thread is about to pump. *)
Definition before_pump (sys : System) : Prop :=
  waiting sys.(embed_pc) /\ sys.(st).(embed_sem_) = Some 0
  /\ sys.(st).(task_queue) = [] /\ next_is true sys.(st).(trace).

(** The states a core goes through from its construction until the
    destructor sets [embed_closed_]. *)
Definition cycle_inv (sys : System) : Prop :=
  sys.(st).(embed_closed_) = false
  /\ ((sys.(phase) = Constructed /\ sys.(main_pc) = []
       /\ sys.(embed_pc) = E_NotStarted /\ sys.(st).(task_queue) = []
       /\ next_is true sys.(st).(trace))
      \/ (sys.(phase) = Prepared /\ sys.(main_pc) = PrepareMessageLoop_ops
          /\ sys.(embed_pc) = E_NotStarted /\ sys.(st).(task_queue) = []
          /\ next_is true sys.(st).(trace))
      \/ (sys.(phase) = Prepared /\ sys.(main_pc) = [] /\ before_pump sys)
      \/ (sys.(phase) = Running /\ sys.(main_pc) = RunMessageLoop_ops
          /\ before_pump sys)
      \/ (sys.(phase) = Running /\ sys.(main_pc) = UvRunOnce_ops
          /\ before_pump sys)
      \/ (sys.(phase) = Running /\ sys.(main_pc) = [OpSemPost]
          /\ waiting sys.(embed_pc) /\ sys.(st).(embed_sem_) = Some 0
          /\ sys.(st).(task_queue) = [] /\ next_is false sys.(st).(trace))
      \/ (sys.(phase) = Running /\ sys.(main_pc) = [] /\ between_tasks sys)
      \/ (sys.(phase) = Destroyed /\ sys.(main_pc) = Destroy_ops
          /\ between_tasks sys)).

(** ** Teardown *)

(** The calls of a [UvRunOnce] that the draining of the loop runs. *)
Definition is_pump_event (e : Event) : Prop :=
  match e with
  | EvEnterContext _ | EvUvRun _ | EvQuitWhenIdle | EvSemPost => True
  | _ => False
  end.

(** The destructor's calls up to the draining of the host loop. *)
Definition teardown_head : list Event :=
  [EvSetClosed; EvSemPost; EvAsyncSend; EvThreadJoin; EvRunUntilIdle].

(** Where the destructor stands, and what the main thread has added to the
    calls [base] it had made before: [drained] are the calls of the tasks
    that [RunUntilIdle] runs. *)
Definition teardown_inv (base : list Event) (sys : System) : Prop :=
  let me := main_events sys.(st).(trace) in
  sys.(phase) = Destroyed
  /\ ((sys.(main_pc) = Destroy_ops /\ me = base)
      \/ (sys.(main_pc) = skipn 1 Destroy_ops
          /\ me = base ++ firstn 1 teardown_head
          /\ sys.(st).(embed_closed_) = true)
      \/ (sys.(main_pc) = skipn 2 Destroy_ops
          /\ me = base ++ firstn 2 teardown_head
          /\ sys.(st).(embed_closed_) = true)
      \/ (sys.(main_pc) = skipn 3 Destroy_ops
          /\ me = base ++ firstn 3 teardown_head
          /\ sys.(st).(embed_closed_) = true)
      \/ (sys.(main_pc) = skipn 4 Destroy_ops
          /\ me = base ++ firstn 4 teardown_head
          /\ sys.(st).(embed_closed_) = true
          /\ sys.(embed_pc) = E_Exited)
      \/ (exists drained,
            me = base ++ teardown_head ++ drained
            /\ Forall is_pump_event drained
            /\ sys.(st).(embed_closed_) = true
            /\ sys.(embed_pc) = E_Exited
            /\ (sys.(main_pc) = OpDrain :: skipn 5 Destroy_ops
                \/ sys.(main_pc) = UvRunOnce_ops ++ OpDrain :: skipn 5 Destroy_ops
                \/ sys.(main_pc) = OpSemPost :: OpDrain :: skipn 5 Destroy_ops))
      \/ (exists drained,
            me = base ++ teardown_head ++ drained
            /\ Forall is_pump_event drained
            /\ sys.(st).(embed_closed_) = true
            /\ sys.(embed_pc) = E_Exited
            /\ sys.(st).(task_queue) = []
            /\ sys.(main_pc) = skipn 5 Destroy_ops)
      \/ (exists drained,
            me = base ++ teardown_head ++ drained ++ [EvSemDestroy]
            /\ Forall is_pump_event drained
            /\ sys.(st).(embed_closed_) = true
            /\ sys.(embed_pc) = E_Exited
            /\ sys.(st).(embed_sem_) = None
            /\ sys.(st).(task_queue) = []
            /\ sys.(main_pc) = [OpTimerStop])
      \/ (exists drained,
            me = base ++ teardown_head ++ drained ++ [EvSemDestroy; EvTimerStop]
            /\ Forall is_pump_event drained
            /\ sys.(st).(embed_closed_) = true
            /\ sys.(embed_pc) = E_Exited
            /\ sys.(st).(embed_sem_) = None
            /\ sys.(st).(task_queue) = []
            /\ timer_running sys.(st) = false
            /\ sys.(main_pc) = [])).

(** The destructor returns on some schedule. *)
Definition returns (sys : System) : Prop :=
  exists ls sys', exec ls sys = Step sys' /\ sys'.(main_pc) = [].

(** The destructor gets to its last statement on some schedule, the idle
    timer being as it was. *)
Definition reaches_stop (sys : System) : Prop :=
  exists ls sys',
    exec ls sys = Step sys'
    /\ sys'.(main_pc) = [OpTimerStop]
    /\ sys'.(st).(idle_timer_) = sys.(st).(idle_timer_).

(** ** An example core *)

(** The core of scenario S1 after [Initialize] in the privileged role. *)
Definition example_state : State :=
  Eval cbv in
    match @Initialize (Concrete.posix_host (Some "/app/bin/app"))
            ["/app/bin/app"; "--flag"] (NodeBindings_new true) with
    | Ok (_, s) => s
    | Crash _ => NodeBindings_new true
    end.

(** Prepare, run, and the first pump. *)
Definition schedule_start : list Label :=
  [L_Host CallPrepareMessageLoop; L_Main; L_Host CallRunMessageLoop;
   L_Main; L_Main; L_Main].

(** The example core, destroyed in the middle of its first poll: the
    destructor has just set [embed_closed_]. *)
Definition example_mid_poll : System :=
  Eval cbv in
    match exec (schedule_start ++ [L_Embed; L_Embed; L_Host CallDestroy; L_Main])
               (System_new example_state) with
    | Step sys => sys
    | _ => System_new example_state
    end.

(** The example core with its embed thread in the middle of the first poll,
    the destructor just entered. *)
Definition example_teardown : System :=
  Eval cbv in
    match exec (schedule_start ++ [L_Embed; L_Embed; L_Host CallDestroy])
               (System_new example_state) with
    | Step sys => sys
    | _ => System_new example_state
    end.

(** * Further properties of the code: definitions *)

(** ** Counting calls *)

Definition is_create_environment (e : Event) : bool :=
  match e with EvCreateEnvironment _ _ => true | _ => false end.

(** How often [node::CreateEnvironment] was called. *)
Definition count_create (tr : list Event) : nat :=
  length (filter is_create_environment tr).

Definition is_timer_arm (e : Event) : bool :=
  match e with EvTimerInit | EvTimerStart _ _ => true | _ => false end.

(** The calls that set up and start the idle timer. *)
Definition timer_arms (tr : list Event) : list Event := filter is_timer_arm tr.

Definition is_uv_run (e : Event) : bool :=
  match e with EvUvRun _ => true | _ => false end.

(** How often [uv_run] was called. *)
Definition count_pumps (tr : list Event) : nat := length (filter is_uv_run tr).

(** An outcome [(r, stop_flag)] of [uv_run] on which [UvRunOnce] asks the
    host loop to quit. *)
Definition quit_outcome (o : Z * Z) : bool :=
  (fst o =? 0)%Z || negb (snd o =? 0)%Z.

(** ** Methods called in a row *)

Section BindAllDefs.
Context {H : Host}.

(** The host binds one frame after the other. *)
Fixpoint BindTo_all (frames : list WebFrame) : M unit :=
  match frames with
  | [] => ret tt
  | frame :: rest => BindTo frame ;; BindTo_all rest
  end.

End BindAllDefs.

(** The host loop runs [k] pump tasks one after the other. *)
Fixpoint UvRunOnce_times (k : nat) : M unit :=
  match k with
  | O => ret tt
  | S k' => UvRunOnce ;; UvRunOnce_times k'
  end.

(** [NodeBindings::RunMessageLoop]. *)
Definition RunMessageLoop : M unit :=
  RunMessageLoop_capture ;; UvRunOnce.

(** What one [UvRunOnce] leaves behind where it does not fault. *)
Definition UvRunOnce_post (env : Environment) (n : nat) (s : State) : State :=
  let s1 := UvRunOnce_pump_post env s in
  set_trace (s1.(trace) ++ [EvSemPost]) (set_embed_sem_ (Some (S n)) s1).

(** ** Schedules without a fault *)

Definition faulted (o : Outcome) : bool :=
  match o with Faulted _ => true | _ => false end.

(** The embed thread runs and has not left its loop. *)
Definition live (pc : EmbedPc) : Prop := waiting pc \/ polling pc.

(** The statements of the destructor after the draining of the host loop. *)
Definition teardown_tail : list MainOp := skipn 5 Destroy_ops.

(** What holds of a core in every state it reaches after [Initialize], by
    where the host and the main thread stand: which pointers and handles
    are in place, whether the embed thread runs, and whether the
    destructor has set [embed_closed_]. *)
Definition safe_inv (sys : System) : Prop :=
  let s := sys.(st) in
  s.(global_env) <> None
  /\ ((sys.(phase) = Constructed /\ sys.(main_pc) = []
       /\ sys.(embed_pc) = E_NotStarted /\ s.(embed_closed_) = false)
      \/ (sys.(phase) = Prepared /\ sys.(main_pc) = PrepareMessageLoop_ops
          /\ sys.(embed_pc) = E_NotStarted /\ s.(embed_closed_) = false)
      \/ (sys.(phase) = Prepared /\ sys.(main_pc) = []
          /\ waiting sys.(embed_pc) /\ s.(embed_sem_) = Some 0
          /\ s.(dummy_uv_handle_) = true /\ s.(embed_closed_) = false)
      \/ (sys.(phase) = Running /\ sys.(main_pc) = RunMessageLoop_ops
          /\ waiting sys.(embed_pc) /\ s.(embed_sem_) = Some 0
          /\ s.(dummy_uv_handle_) = true /\ s.(embed_closed_) = false)
      \/ (sys.(phase) = Running
          /\ (sys.(main_pc) = [] \/ sys.(main_pc) = UvRunOnce_ops
              \/ sys.(main_pc) = [OpSemPost])
          /\ live sys.(embed_pc) /\ s.(embed_sem_) <> None
          /\ s.(message_loop_) <> None
          /\ s.(dummy_uv_handle_) = true /\ s.(embed_closed_) = false)
      \/ (sys.(phase) = Destroyed /\ sys.(main_pc) = Destroy_ops
          /\ live sys.(embed_pc) /\ s.(embed_sem_) <> None
          /\ s.(message_loop_) <> None
          /\ s.(dummy_uv_handle_) = true /\ s.(embed_closed_) = false)
      \/ (sys.(phase) = Destroyed
          /\ (sys.(main_pc) = skipn 1 Destroy_ops
              \/ sys.(main_pc) = skipn 2 Destroy_ops
              \/ sys.(main_pc) = skipn 3 Destroy_ops)
          /\ sys.(embed_pc) <> E_NotStarted /\ s.(embed_sem_) <> None
          /\ s.(message_loop_) <> None
          /\ s.(dummy_uv_handle_) = true /\ s.(embed_closed_) = true)
      \/ (sys.(phase) = Destroyed
          /\ (sys.(main_pc) = skipn 4 Destroy_ops
              \/ sys.(main_pc) = OpDrain :: teardown_tail
              \/ sys.(main_pc) = UvRunOnce_ops ++ OpDrain :: teardown_tail
              \/ sys.(main_pc) = OpSemPost :: OpDrain :: teardown_tail)
          /\ sys.(embed_pc) = E_Exited /\ s.(embed_sem_) <> None
          /\ s.(message_loop_) <> None
          /\ s.(dummy_uv_handle_) = true /\ s.(embed_closed_) = true)
      \/ (sys.(phase) = Destroyed /\ sys.(main_pc) = teardown_tail
          /\ sys.(embed_pc) = E_Exited /\ s.(embed_sem_) <> None
          /\ s.(task_queue) = []
          /\ s.(dummy_uv_handle_) = true /\ s.(embed_closed_) = true)
      \/ (sys.(phase) = Destroyed
          /\ (sys.(main_pc) = [OpTimerStop] \/ sys.(main_pc) = [])
          /\ sys.(embed_pc) = E_Exited /\ s.(embed_sem_) = None
          /\ s.(task_queue) = []
          /\ s.(dummy_uv_handle_) = true /\ s.(embed_closed_) = true)).

(** ** The baton the two threads pass *)

Definition is_polling (pc : EmbedPc) : bool :=
  match pc with E_Polling | E_Wakeup => true | _ => false end.

Definition sem_count (s : State) : nat :=
  match s.(embed_sem_) with Some n => n | None => 0 end.

(** Who may touch the loop next: the main thread inside a method, a post on
    the semaphore, the embed thread between [uv_sem_wait] and
    [WakeupMainThread], or a queued pump task. *)
Definition batons (sys : System) : nat :=
  (match sys.(main_pc) with [] => 0 | _ :: _ => 1 end)
  + sem_count sys.(st)
  + (if is_polling sys.(embed_pc) then 1 else 0)
  + length sys.(st).(task_queue).

(** Neither thread can move and the host loop has no pump task to run. *)
Definition quiescent (sys : System) : Prop :=
  main_step sys = Blocked
  /\ embed_step sys = Blocked
  /\ host_step CallRunTask sys = Blocked.

(** The example core at rest: the first pump done, the embed thread inside
    its first poll. *)
Definition example_polling : System :=
  Eval cbv in
    match exec (schedule_start ++ [L_Embed; L_Embed]) (System_new example_state) with
    | Step sys => sys
    | _ => System_new example_state
    end.

(** ** The end of teardown *)

(** The destructor has run its last statement. *)
Definition destructor_returned (sys : System) : bool :=
  match sys.(phase), sys.(main_pc) with
  | Destroyed, [] => true
  | _, _ => false
  end.

Definition has_exited (pc : EmbedPc) : bool :=
  match pc with E_Exited => true | _ => false end.

(** The pumps the main thread has yet to run in the method it is in. *)
Fixpoint pending_pumps (ops : list MainOp) : nat :=
  match ops with
  | [] => 0
  | OpPump :: r => S (pending_pumps r)
  | _ :: r => pending_pumps r
  end.

(** The posts of the semaphore the main thread makes before it joins the
    embed thread. *)
Fixpoint posts_before_join (ops : list MainOp) : nat :=
  match ops with
  | [] => 0
  | OpJoin :: _ => 0
  | OpSemPost :: r => S (posts_before_join r)
  | _ :: r => posts_before_join r
  end.

(** An upper bound on the pumps a core being destroyed will have run when
    the destructor returns: the pumps run so far, the ones the main thread
    has under way or queued, and, while the embed thread has not left, the
    ones it may still ask for, one for the poll it is in and one for each
    post of the semaphore it can still take. *)
Definition pump_budget (sys : System) : nat :=
  count_pumps sys.(st).(trace)
  + pending_pumps sys.(main_pc)
  + length sys.(st).(task_queue)
  + (if has_exited sys.(embed_pc) then 0
     else sem_count sys.(st)
          + (if is_polling sys.(embed_pc) then 1 else 0)
          + posts_before_join sys.(main_pc)).

(** * Proofs *)

(** ** Tactics for the monad *)

(** Unfold the monad and the record updates, and nothing else. *)
Ltac run_m :=
  cbv beta iota zeta delta
    [bind ret get modify emit deref valid crash when
     set_message_loop_ set_embed_closed_ set_embed_sem_ set_idle_timer_
     set_dummy_uv_handle_ set_async_pending set_global_env set_g_standalone_mode
     set_g_upstream_node_mode set_uv set_task_queue set_tokens set_trace
     is_browser_ message_loop_ embed_closed_ embed_sem_ idle_timer_
     dummy_uv_handle_ async_pending global_env g_standalone_mode
     g_upstream_node_mode stop_flag uv_script task_queue tokens trace].

Tactic Notation "run_m" "in" hyp(Hyp) :=
  cbv beta iota zeta delta
    [bind ret get modify emit deref valid crash when
     set_message_loop_ set_embed_closed_ set_embed_sem_ set_idle_timer_
     set_dummy_uv_handle_ set_async_pending set_global_env set_g_standalone_mode
     set_g_upstream_node_mode set_uv set_task_queue set_tokens set_trace
     is_browser_ message_loop_ embed_closed_ embed_sem_ idle_timer_
     dummy_uv_handle_ async_pending global_env g_standalone_mode
     g_upstream_node_mode stop_flag uv_script task_queue tokens trace] in Hyp.

(** ** The collaborators' models on examples *)

Example DirName_exe : PosixPath.DirName "/app/bin/app" = "/app/bin".
Proof. reflexivity. Qed.

Example DirName_root : PosixPath.DirName "/app" = "/".
Proof. reflexivity. Qed.

Example DirName_relative : PosixPath.DirName "app" = ".".
Proof. reflexivity. Qed.

Example DirName_trailing : PosixPath.DirName "/app/bin//" = "/app".
Proof. reflexivity. Qed.

Example Append_resources : PosixPath.Append "/app/bin" "resources" = "/app/bin/resources".
Proof. reflexivity. Qed.

Example Append_root : PosixPath.Append "/" "resources" = "/resources".
Proof. reflexivity. Qed.

Example utf16_euro : Concrete.utf16_bytes [8364%Z] = [226; 130; 172]%Z.
Proof. reflexivity. Qed.

Example url_path_file :
  Concrete.url_path "file:///tmp/hello%20world.html" = "/tmp/hello%20world.html".
Proof. reflexivity. Qed.

Example unescape_space :
  Concrete.unescape_url_component "/tmp/hello%20world.html" 3 = "/tmp/hello world.html".
Proof. reflexivity. Qed.

Example unescape_keeps_control :
  Concrete.unescape_url_component "/a%0Ab%2Fc" 3 = "/a%0Ab/c".
Proof. reflexivity. Qed.

(** ** The runtime initializer *)

Lemma node_init_argvs_app (a b : list Event) :
  node_init_argvs (a ++ b) = node_init_argvs a ++ node_init_argvs b.
Proof.
  induction a as [|e a IH]; simpl; [reflexivity|].
  destruct e; simpl; rewrite ?IH; reflexivity.
Qed.

Section InitializeFacts.
Context {H : Host}.

Lemma Initialize_run a0 rest s :
  Initialize (a0 :: rest) s = Ok (tt, Initialize_post a0 rest s).
Proof.
  destruct s as [b ml cl sem tm dh ap ge sm um sf us tq tk tr].
  unfold Initialize, Initialize_post, entry_script, exec_path_of.
  destruct b; cbn; rewrite <- ?app_assoc; reflexivity.
Qed.

Lemma Initialize_empty s :
  Initialize [] s = Crash (OutOfRange "str_argv[0]").
Proof. reflexivity. Qed.

End InitializeFacts.

Lemma Initialize_argv (H : Host) (a0 : StringType os)
  (rest : list (StringType os)) (s : State) :
  node_init_argvs (Initialize_post a0 rest s).(trace)
  = node_init_argvs s.(trace)
    ++ [arg_to_utf8 a0 :: entry_script s.(is_browser_) a0 :: map arg_to_utf8 rest].
Proof.
  unfold Initialize_post.
  destruct s as [b ml cl sem tm dh ap ge sm um sf us tq tk tr].
  destruct b; cbn; rewrite !node_init_argvs_app; cbn;
    rewrite ?app_nil_r; reflexivity.
Qed.

Lemma resources_path_amended (H : Host) (b : bool) (p : FilePath) :
  resources_path_of b p = amended_resources_path H b p.
Proof.
  unfold resources_path_of, amended_resources_path, parent.
  destruct os; reflexivity.
Qed.

(** C1: on a non-empty argument vector [Initialize] hands [node::Init]
    exactly one vector, [argv[0]], the entry script, [argv[1]], ... in this
    order, each argument through [UTF16ToUTF8] under [OS_WIN] and as it is
    on the platforms whose native strings are narrow.  On the vector of
    scenario S1 that is the program, the script under [resources], and the
    flag. *)
Theorem Initialize_splices_entry_script :
  (forall (H : Host) (a0 : StringType os) (rest : list (StringType os)) (s : State),
     exists s',
       Initialize (a0 :: rest) s = Ok (tt, s')
       /\ node_init_argvs s'.(trace)
          = node_init_argvs s.(trace)
            ++ [arg_to_utf8 a0 :: entry_script s.(is_browser_) a0
                :: map arg_to_utf8 rest])
  /\ (forall (H : Host),
        match os as o return (StringType o -> string) -> Prop with
        | OS_WIN => fun f => f = UTF16ToUTF8
        | OS_MACOSX => fun f => forall a, f a = a
        | OS_POSIX => fun f => forall a, f a = a
        end arg_to_utf8)
  /\ (exists s',
        @Initialize (Concrete.posix_host (Some "/app/bin/app"))
          ["/app/bin/app"; "--flag"] (NodeBindings_new true) = Ok (tt, s')
        /\ node_init_argvs s'.(trace)
           = [["/app/bin/app"; "/app/bin/resources/browser/atom/atom.js";
               "--flag"]]).
Proof.
  split; [|split].
  - intros H a0 rest s.
    exists (Initialize_post a0 rest s).
    split; [apply Initialize_run | apply Initialize_argv].
  - intros [o u F Fn P D A AA U nI cE G Un].
    destruct o; cbn; intros; reflexivity.
  - eexists. split; vm_compute; reflexivity.
Qed.

(** C4, counterexample: the renderer role leaves [g_standalone_mode]
    false. *)
Lemma standalone_for_every_role_fails :
  (exists s',
     @Initialize (Concrete.posix_host None) ["/app/bin/app"]
       (NodeBindings_new false) = Ok (tt, s')
     /\ s'.(g_standalone_mode) = false)
  /\ ~ standalone_for_every_role.
Proof.
  split.
  - eexists. split; [apply Initialize_run | reflexivity].
  - intros C.
    destruct (C (Concrete.posix_host None) ["/app/bin/app"]
                (NodeBindings_new false) _ (Initialize_run _ _ _)) as [Hs _].
    vm_compute in Hs. discriminate Hs.
Qed.

(** C4, amended: after [Initialize] the standalone switch holds the role
    flag, true in the privileged role and false in the renderer role, and
    the upstream switch is false in both. *)
Theorem Initialize_sets_mode_by_role :
  forall (H : Host) (a0 : StringType os) (rest : list (StringType os)) (s : State),
    exists s',
      Initialize (a0 :: rest) s = Ok (tt, s')
      /\ s'.(g_standalone_mode) = s.(is_browser_)
      /\ s'.(g_upstream_node_mode) = false
      /\ s'.(is_browser_) = s.(is_browser_).
Proof.
  intros H a0 rest s.
  exists (Initialize_post a0 rest s). split; [apply Initialize_run|].
  destruct s as [b ml cl sem tm dh ap ge sm um sf us tq tk tr].
  destruct b; cbn; auto.
Qed.

(** C5, counterexample: off macOS, for the executable [/app/bin/app], the
    code looks in [/app/bin/resources], not in [/app/bin/app/resources]. *)
Lemma resources_rule_as_specified_fails :
  @resources_path_of (Concrete.posix_host None) true "/app/bin/app"
  = "/app/bin/resources"
  /\ spec_resources_path (Concrete.posix_host None) true "/app/bin/app"
     = "/app/bin/app/resources"
  /\ ~ resources_rule_as_specified.
Proof.
  split; [reflexivity|]. split; [reflexivity|].
  intros C.
  specialize (C (Concrete.posix_host None) true "/app/bin/app").
  vm_compute in C. discriminate C.
Qed.

(** C5, amended: the script [Initialize] passes on is
    [<resources>/browser/atom/<name>], [<name>] being [atom.js] in the
    privileged role and [atom-renderer.js] otherwise, and [<resources>]
    being, on macOS, [Resources] two levels above the executable in the
    privileged role and five levels above it otherwise, and, on the other
    platforms, [resources] one level above the executable, that is, next to
    it.  The helper of scenario S2 gets the script under
    [/Apps/X.app/Contents/Resources]. *)
Theorem Initialize_entry_script_rule :
  (forall (H : Host) (a0 : StringType os) (rest : list (StringType os)) (s : State),
     exists s' script tail,
       Initialize (a0 :: rest) s = Ok (tt, s')
       /\ node_init_argvs s'.(trace)
          = node_init_argvs s.(trace) ++ [arg_to_utf8 a0 :: script :: tail]
       /\ script
          = AsUTF8Unsafe
              (AppendASCII
                 (AppendASCII
                    (AppendASCII
                       (amended_resources_path H s.(is_browser_) (exec_path_of a0))
                       "browser")
                    "atom")
                 (entry_script_name s.(is_browser_))))
  /\ @entry_script
       (Concrete.mac_host
          (Some "/Apps/X.app/Contents/Frameworks/H.app/Contents/MacOS/helper"))
       false "helper"
     = "/Apps/X.app/Contents/Resources/browser/atom/atom-renderer.js".
Proof.
  split; [|vm_compute; reflexivity].
  intros H a0 rest s.
  exists (Initialize_post a0 rest s), (entry_script s.(is_browser_) a0),
    (map arg_to_utf8 rest).
  split; [apply Initialize_run|]. split; [apply Initialize_argv|].
  unfold entry_script, script_path_of, entry_script_name.
  rewrite resources_path_amended. reflexivity.
Qed.

(** ** The context binder *)

Section BindToFacts.
Context {H : Host}.

Lemma BindTo_run frame c env s :
  frame.(mainWorldScriptContext) = Some c ->
  s.(global_env) = Some env ->
  BindTo frame s = Ok (tt, BindTo_post frame c env s).
Proof.
  intros Hc He.
  destruct s as [b ml cl sem tm dh ap ge sm um sf us tq tk tr].
  cbn in He. subst ge.
  unfold BindTo, BindTo_post, BindTo_events, script_path_arg. rewrite Hc.
  run_m. rewrite <- !app_assoc. reflexivity.
Qed.

Lemma BindTo_null_env frame c s :
  frame.(mainWorldScriptContext) = Some c ->
  s.(global_env) = None ->
  BindTo frame s = Crash (NullDeref "global_env").
Proof.
  intros Hc He.
  destruct s as [b ml cl sem tm dh ap ge sm um sf us tq tk tr].
  cbn in He. subst ge.
  unfold BindTo. rewrite Hc. reflexivity.
Qed.

End BindToFacts.

(** C7: on a frame whose main-world context is empty [BindTo] returns
    without a fault and leaves every part of the state as it was, the trace
    of calls included: no context entered, no token written, no bootstrap
    run.  This holds also where [global_env] is still [NULL]. *)
Theorem BindTo_empty_context_noop (H : Host) (frame : WebFrame) (s : State)
  (Hempty : frame.(mainWorldScriptContext) = None) :
  BindTo frame s = Ok (tt, s).
Proof. unfold BindTo. rewrite Hempty. reflexivity. Qed.

Lemma BindTo_empty_context_noop_witness :
  @BindTo (Concrete.posix_host None) (mkWebFrame None "file:///tmp/a.html")
    (NodeBindings_new false)
  = Ok (tt, NodeBindings_new false).
Proof.
  apply (BindTo_empty_context_noop (Concrete.posix_host None)
           (mkWebFrame None "file:///tmp/a.html") (NodeBindings_new false)).
  reflexivity.
Defined.

(** C9: with a context [c] and the environment in place, [BindTo] ends in
    one call of the bootstrap function, on the global object of [c], with
    two arguments: the process object of the shared environment and the
    path of the document URL unescaped under [SPACES | URL_SPECIAL_CHARS].
    For [file:///tmp/hello%20world.html] the second argument is
    [/tmp/hello world.html]. *)
Theorem BindTo_calls_bootstrap (H : Host) (frame : WebFrame) (c : ContextId)
  (env : Environment) (s : State)
  (Hctx : frame.(mainWorldScriptContext) = Some c)
  (Henv : s.(global_env) = Some env) :
  (exists s',
     BindTo frame s = Ok (tt, s')
     /\ s'.(trace)
        = s.(trace)
          ++ [EvEnterContext c;
              EvSetSecurityToken c (get_token env.(env_context) s.(tokens));
              EvCompileCefodeMainSource;
              EvScriptRun;
              EvCall (VGlobal c)
                [env.(env_process_object);
                 VString (UnescapeURLComponent (GURL_path frame.(document_url))
                            (Z.lor UnescapeRule.SPACES
                                   UnescapeRule.URL_SPECIAL_CHARS))]])
  /\ @script_path_arg (Concrete.posix_host None)
       (mkWebFrame (Some 1) "file:///tmp/hello%20world.html")
     = "/tmp/hello world.html".
Proof.
  split; [|vm_compute; reflexivity].
  exists (BindTo_post frame c env s).
  split; [apply BindTo_run; assumption | reflexivity].
Qed.

(** C10: [BindTo] tests the context and nothing else.  With a context in
    hand it runs to its end without a fault whenever [global_env] is set,
    and [Initialize] on a non-empty argument vector sets it; with
    [global_env] still [NULL] it faults at the first dereference, the one
    for the security token. *)
Theorem BindTo_env_access (H : Host) (frame : WebFrame) (c : ContextId) (s : State)
  (Hctx : frame.(mainWorldScriptContext) = Some c) :
  (forall env, s.(global_env) = Some env ->
     exists s', BindTo frame s = Ok (tt, s'))
  /\ (s.(global_env) = None -> BindTo frame s = Crash (NullDeref "global_env"))
  /\ (forall (a0 : StringType os) (rest : list (StringType os)) (s0 : State),
        exists s1 env s2,
          Initialize (a0 :: rest) s0 = Ok (tt, s1)
          /\ s1.(global_env) = Some env
          /\ BindTo frame s1 = Ok (tt, s2)).
Proof.
  split; [|split].
  - intros env He. eexists. apply (BindTo_run frame c env s Hctx He).
  - intros He. exact (BindTo_null_env frame c s Hctx He).
  - intros a0 rest s0.
    pose (args := arg_to_utf8 a0 :: entry_script s0.(is_browser_) a0
                  :: map arg_to_utf8 rest).
    pose (env := CreateEnvironment (fst (node_Init args)) (fst (node_Init args))).
    exists (Initialize_post a0 rest s0), env,
      (BindTo_post frame c env (Initialize_post a0 rest s0)).
    split; [apply Initialize_run|].
    assert (He : (Initialize_post a0 rest s0).(global_env) = Some env)
      by reflexivity.
    split; [exact He|]. apply BindTo_run; assumption.
Qed.

Lemma BindTo_env_access_witness :
  (exists s',
     @BindTo (Concrete.posix_host None) (mkWebFrame (Some 1) "file:///tmp/a.html")
       (set_global_env (Some (Concrete.create_environment ["app"] ["app"]))
          (NodeBindings_new false)) = Ok (tt, s'))
  /\ @BindTo (Concrete.posix_host None) (mkWebFrame (Some 1) "file:///tmp/a.html")
       (NodeBindings_new false) = Crash (NullDeref "global_env").
Proof.
  split.
  - destruct (BindTo_env_access (Concrete.posix_host None)
                (mkWebFrame (Some 1) "file:///tmp/a.html") 1
                (set_global_env (Some (Concrete.create_environment ["app"] ["app"]))
                   (NodeBindings_new false)) eq_refl) as [Hok _].
    exact (Hok _ eq_refl).
  - destruct (BindTo_env_access (Concrete.posix_host None)
                (mkWebFrame (Some 1) "file:///tmp/a.html") 1
                (NodeBindings_new false) eq_refl) as [_ [Hnull _]].
    exact (Hnull eq_refl).
Defined.

Lemma BindTo_calls_bootstrap_witness :
  exists s',
    @BindTo (Concrete.posix_host None)
      (mkWebFrame (Some 1) "file:///tmp/hello%20world.html")
      (set_global_env (Some (Concrete.create_environment ["app"] ["app"]))
         (NodeBindings_new false)) = Ok (tt, s')
    /\ s'.(trace)
       = [EvEnterContext 1; EvSetSecurityToken 1 0%Z; EvCompileCefodeMainSource;
          EvScriptRun;
          EvCall (VGlobal 1)
            [VProcessObject ["app"] ["app"]; VString "/tmp/hello world.html"]].
Proof.
  destruct (BindTo_calls_bootstrap (Concrete.posix_host None)
              (mkWebFrame (Some 1) "file:///tmp/hello%20world.html") 1
              (Concrete.create_environment ["app"] ["app"])
              (set_global_env (Some (Concrete.create_environment ["app"] ["app"]))
                 (NodeBindings_new false)) eq_refl eq_refl)
    as [[s' [Hrun Htr]] _].
  exists s'. split; [exact Hrun|]. rewrite Htr. vm_compute. reflexivity.
Defined.

(** ** One turn of the pump *)

Lemma UvRunOnce_pump_run env s :
  s.(global_env) = Some env ->
  (quits s = true -> s.(message_loop_) <> None) ->
  UvRunOnce_pump s = Ok (tt, UvRunOnce_pump_post env s).
Proof.
  intros He Hm.
  destruct s as [b ml cl sem tm dh ap ge sm um sf us tq tk tr].
  cbn in He. subst ge.
  unfold UvRunOnce_pump, UvRunOnce_pump_post, uv_run, quits, next_uv in *.
  run_m. run_m in Hm.
  destruct us as [|[r f] us]; run_m; cbn [fst snd tl] in *.
  - destruct ((1 =? 0)%Z || negb (sf =? 0)%Z) eqn:Hq; run_m.
    + destruct ml; [|exfalso; apply Hm; reflexivity].
      rewrite <- !app_assoc. reflexivity.
    + rewrite <- !app_assoc, app_nil_r. reflexivity.
  - destruct ((r =? 0)%Z || negb (f =? 0)%Z) eqn:Hq; run_m.
    + destruct ml; [|exfalso; apply Hm; reflexivity].
      rewrite <- !app_assoc. reflexivity.
    + rewrite <- !app_assoc, app_nil_r. reflexivity.
Qed.

Lemma uv_sem_post_run n s :
  s.(embed_sem_) = Some n ->
  uv_sem_post s
  = Ok (tt, set_trace (s.(trace) ++ [EvSemPost]) (set_embed_sem_ (Some (S n)) s)).
Proof.
  intros Hs.
  destruct s as [b ml cl sem tm dh ap ge sm um sf us tq tk tr].
  cbn in Hs. subst sem. reflexivity.
Qed.

Lemma count_quit_app (a b : list Event) :
  count_quit (a ++ b) = count_quit a + count_quit b.
Proof. unfold count_quit. rewrite filter_app, length_app. reflexivity. Qed.

(** C6: one [UvRunOnce] calls [QuitWhenIdle] exactly when the iteration of
    the loop returned 0 or left [stop_flag] set, and then once: the calls
    it adds to the trace are entering the context, [uv_run], the quit call
    under that condition only, and the post of the semaphore. *)
Theorem UvRunOnce_quits_iff_loop_done (s : State) (env : Environment)
  (ml : MessageLoopRef) (n : nat)
  (Henv : s.(global_env) = Some env)
  (Hloop : s.(message_loop_) = Some ml)
  (Hsem : s.(embed_sem_) = Some n) :
  exists s',
    UvRunOnce s = Ok (tt, s')
    /\ s'.(stop_flag) = snd (next_uv s)
    /\ s'.(trace)
       = s.(trace)
         ++ [EvEnterContext env.(env_context); EvUvRun (fst (next_uv s))]
         ++ (if (fst (next_uv s) =? 0)%Z || negb (s'.(stop_flag) =? 0)%Z
             then [EvQuitWhenIdle] else [])
         ++ [EvSemPost]
    /\ count_quit s'.(trace)
       = count_quit s.(trace)
         + (if (fst (next_uv s) =? 0)%Z || negb (s'.(stop_flag) =? 0)%Z
            then 1 else 0).
Proof.
  assert (Hpump : UvRunOnce_pump s = Ok (tt, UvRunOnce_pump_post env s)).
  { apply UvRunOnce_pump_run; [exact Henv|]. intros _. rewrite Hloop. discriminate. }
  assert (Hsem' : (UvRunOnce_pump_post env s).(embed_sem_) = Some n).
  { destruct s; exact Hsem. }
  eexists. split.
  { unfold UvRunOnce, bind. rewrite Hpump.
    rewrite (uv_sem_post_run n _ Hsem'). reflexivity. }
  destruct s as [b ml' cl sem tm dh ap ge sm um sf us tq tk tr].
  unfold UvRunOnce_pump_post. run_m.
  fold (quits (mkState b ml' cl sem tm dh ap ge sm um sf us tq tk tr)).
  split; [reflexivity|]. split.
  - rewrite <- !app_assoc. reflexivity.
  - rewrite <- !app_assoc, !count_quit_app.
    destruct (quits _); cbn; lia.
Qed.

Lemma UvRunOnce_quits_iff_loop_done_witness :
  exists s',
    UvRunOnce
      (set_uv 0 [(0%Z, 0%Z)]
         (set_embed_sem_ (Some 0)
            (set_message_loop_ (Some MainThreadLoop)
               (set_global_env (Some (Concrete.create_environment [] []))
                  (NodeBindings_new true))))) = Ok (tt, s')
    /\ s'.(trace) = [EvEnterContext 0; EvUvRun 0; EvQuitWhenIdle; EvSemPost].
Proof.
  destruct (UvRunOnce_quits_iff_loop_done
              (set_uv 0 [(0%Z, 0%Z)]
                 (set_embed_sem_ (Some 0)
                    (set_message_loop_ (Some MainThreadLoop)
                       (set_global_env (Some (Concrete.create_environment [] []))
                          (NodeBindings_new true)))))
              (Concrete.create_environment [] []) MainThreadLoop 0
              eq_refl eq_refl eq_refl) as [s' [Hrun [Hflag [Htr _]]]].
  exists s'. split; [exact Hrun|].
  rewrite Htr, Hflag. reflexivity.
Defined.

(** ** Schedules that refute the stated properties *)

Lemma example_state_fresh : fresh example_state.
Proof. repeat split. Qed.

(** C3, counterexample: destroyed in the middle of its first poll, the
    embed thread returns from [PollEvents], calls [WakeupMainThread], which
    posts a task, and only then sees [embed_closed_] and leaves. *)
Lemma final_poll_posts_no_task_fails :
  (exists sys',
     exec [L_Main; L_Main; L_Embed; L_Embed; L_Embed] example_mid_poll = Step sys'
     /\ sys'.(embed_pc) = E_Exited
     /\ count_post example_mid_poll.(st).(trace) = 0
     /\ count_post sys'.(st).(trace) = 1)
  /\ ~ final_poll_posts_no_task.
Proof.
  split.
  - eexists. split; [vm_compute; reflexivity|]. repeat split.
  - intros C.
    specialize (C example_state
                  (schedule_start ++ [L_Embed; L_Embed; L_Host CallDestroy; L_Main])
                  [L_Main; L_Main; L_Embed; L_Embed; L_Embed]
                  example_mid_poll).
    destruct (exec [L_Main; L_Main; L_Embed; L_Embed; L_Embed] example_mid_poll)
      as [sys'| |] eqn:E; [|vm_compute in E; discriminate E ..].
    specialize (C sys' example_state_fresh ltac:(vm_compute; reflexivity)
                  ltac:(repeat split) eq_refl).
    vm_compute in E. injection E as <-.
    specialize (C eq_refl). vm_compute in C. discriminate C.
Qed.

(** C2, counterexample: the destructor runs while the task of the first
    poll is still queued; its post of the semaphore lets the embed thread
    poll a second time before any pump. *)
Lemma pump_poll_alternate_always_fails :
  (exists sys,
     exec (schedule_start
           ++ [L_Embed; L_Embed; L_Io; L_Embed; L_Embed; L_Embed;
               L_Host CallDestroy; L_Main; L_Main; L_Embed])
          (System_new example_state) = Step sys
     /\ pump_poll sys.(st).(trace) = [true; false; false])
  /\ ~ pump_poll_alternate_always.
Proof.
  split.
  - eexists. split; [vm_compute; reflexivity | reflexivity].
  - intros C.
    pose (ls := schedule_start
                ++ [L_Embed; L_Embed; L_Io; L_Embed; L_Embed; L_Embed;
                    L_Host CallDestroy; L_Main; L_Main; L_Embed]).
    destruct (exec ls (System_new example_state)) as [sys| |] eqn:E;
      [|vm_compute in E; discriminate E ..].
    specialize (C example_state ls sys example_state_fresh E).
    vm_compute in E. injection E as <-.
    vm_compute in C. discriminate C.
Qed.

(** ** What a step can change *)

Arguments count_post : simpl never.
Arguments main_events : simpl never.

Lemma count_post_app (a b : list Event) :
  count_post (a ++ b) = count_post a + count_post b.
Proof. unfold count_post. rewrite filter_app, length_app. reflexivity. Qed.

Lemma main_events_app (a b : list Event) :
  main_events (a ++ b) = main_events a ++ main_events b.
Proof. apply filter_app. Qed.

Lemma pump_poll_app (a b : list Event) :
  pump_poll (a ++ b) = pump_poll a ++ pump_poll b.
Proof.
  induction a as [|e a IH]; simpl; [reflexivity|].
  destruct e; simpl; rewrite ?IH; reflexivity.
Qed.

(** Split a step into the cases of its statement and of what the statement
    finds in the state. *)
Ltac step_cases Hstep :=
  unfold sys_step, host_step, main_step, embed_step, main_do, embed_do,
    PrepareMessageLoop_init, RunMessageLoop_capture, UvRunOnce_pump, uv_run,
    uv_sem_post, WakeupEmbedThread, WakeupMainThread, uv_sem_destroy,
    uv_timer_stop, PrepareMessageLoop_ops, RunMessageLoop_ops, UvRunOnce_ops,
    Destroy_ops in Hstep;
  cbn [st embed_pc main_pc phase io_ready app] in Hstep;
  run_m in Hstep;
  repeat match type of Hstep with
    | context [match ?x with _ => _ end] =>
        is_var x; destruct x; run_m in Hstep
    | context [match ?x with _ => _ end] =>
        lazymatch x with
        | context [match _ with _ => _ end] => fail
        | _ => idtac
        end;
        let Hq := fresh "Hq" in destruct x eqn:Hq; run_m in Hstep
    end;
  try discriminate Hstep;
  injection Hstep as <-.

Lemma main_step_frame sys sys' :
  main_step sys = Step sys' ->
  ~ In OpPrepare sys.(main_pc) ->
  sys'.(embed_pc) = sys.(embed_pc)
  /\ sys'.(phase) = sys.(phase)
  /\ count_post sys'.(st).(trace) = count_post sys.(st).(trace)
  /\ (sys.(st).(embed_closed_) = true -> sys'.(st).(embed_closed_) = true)
  /\ ~ In OpPrepare sys'.(main_pc).
Proof.
  intros Hstep Hnp.
  destruct sys as [[b ml cl sem tm dh ap ge sm um sf us tq tk tr] pc mpc ph io].
  step_cases Hstep; cbn in Hnp |- *;
    rewrite ?count_post_app; unfold count_post; cbn;
    repeat split; try lia; try tauto; try (intuition discriminate).
Qed.

(** ** The last cycle of the embed thread *)

Lemma final_cycle_step base l sys sys' :
  final_cycle base sys ->
  sys_step l sys = Step sys' ->
  final_cycle base sys'.
Proof.
  intros (Hph & Hnp & Hcl & Hpc) Hstep.
  destruct l as [c| | |]; cbn [sys_step] in Hstep.
  - destruct sys as [[b ml cl sem tm dh ap ge sm um sf us tq tk tr] pc mpc ph io].
    cbn in Hph. subst ph.
    destruct c; step_cases Hstep.
  - destruct (main_step_frame sys sys' Hstep Hnp) as (Epc & Eph & Ecnt & Ecl & Enp).
    unfold final_cycle. rewrite Epc, Eph, Ecnt. auto.
  - destruct sys as [[b ml cl sem tm dh ap ge sm um sf us tq tk tr] pc mpc ph io].
    step_cases Hstep; cbn in Hph, Hnp, Hcl, Hpc |- *;
      try contradiction; try discriminate Hcl;
      unfold final_cycle; cbn;
      rewrite ?count_post_app; unfold count_post in *; cbn;
      repeat split; try assumption; try lia.
  - injection Hstep as <-. exact (conj Hph (conj Hnp (conj Hcl Hpc))).
Qed.

Lemma final_cycle_exec base ls : forall sys sys',
  final_cycle base sys ->
  exec ls sys = Step sys' ->
  final_cycle base sys'.
Proof.
  induction ls as [|l ls IH]; intros sys sys' Hinv Hex; cbn in Hex.
  - injection Hex as <-. exact Hinv.
  - destruct (sys_step l sys) as [sys1| |] eqn:Hstep; try discriminate Hex.
    apply (IH sys1 sys'); [|exact Hex].
    exact (final_cycle_step base l sys sys1 Hinv Hstep).
Qed.

(** C3, amended: when the destructor has set [embed_closed_] with the embed
    thread inside [PollEvents], then on every schedule on which the thread
    reaches its exit it has called [WakeupMainThread] exactly once more,
    so one task was posted by that last cycle; and the thread does reach
    its exit: after the destructor's post of the semaphore and its
    [uv_async_send] the poll returns, the task is posted, the flag is seen
    and the thread leaves. *)
Theorem final_poll_posts_one_task (sys : System) (n : nat) (ml : MessageLoopRef)
  (Hmid : destroyed_mid_poll sys)
  (Hsem : sys.(st).(embed_sem_) = Some n)
  (Hloop : sys.(st).(message_loop_) = Some ml) :
  (forall ls sys',
     exec ls sys = Step sys' ->
     sys'.(embed_pc) = E_Exited ->
     count_post sys'.(st).(trace) = S (count_post sys.(st).(trace)))
  /\ (exists sys',
        exec [L_Main; L_Main; L_Embed; L_Embed; L_Embed] sys = Step sys'
        /\ sys'.(embed_pc) = E_Exited
        /\ sys'.(st).(trace)
           = sys.(st).(trace) ++ [EvSemPost; EvAsyncSend; EvPostTask]
        /\ sys'.(st).(task_queue) = sys.(st).(task_queue) ++ [TaskUvRunOnce]).
Proof.
  destruct Hmid as (Hpc & Hmain & Hph & Hcl).
  split.
  - intros ls sys' Hex Hexit.
    assert (Hinv : final_cycle (count_post sys.(st).(trace)) sys).
    { unfold final_cycle. rewrite Hpc, Hmain. repeat split; auto.
      cbn. intuition discriminate. }
    destruct (final_cycle_exec _ ls sys sys' Hinv Hex) as (_ & _ & _ & Hcnt).
    rewrite Hexit in Hcnt. exact Hcnt.
  - destruct sys as [[b ml' cl sem tm dh ap ge sm um sf us tq tk tr] pc mpc ph io].
    cbn in Hpc, Hmain, Hph, Hcl, Hsem, Hloop. subst.
    eexists. split; [cbv -[app]; reflexivity|].
    cbn. rewrite <- !app_assoc. auto.
Qed.

(** ** The cycle of pump and poll *)

Lemma alternating_snoc (l : list bool) (p : bool) :
  alternating (l ++ [p]) = true ->
  alternating ((l ++ [p]) ++ [negb p]) = true.
Proof.
  induction l as [|a l IH]; intros Halt.
  - destruct p; reflexivity.
  - destruct l as [|b l].
    + cbn in *. destruct a, p; cbn in *; congruence.
    + change (negb (Bool.eqb a b) && alternating ((b :: l) ++ [p]) = true) in Halt.
      change (negb (Bool.eqb a b)
              && alternating (((b :: l) ++ [p]) ++ [negb p]) = true).
      apply andb_true_iff in Halt. destruct Halt as [Hab Hrest].
      rewrite Hab. cbn [andb]. apply IH. exact Hrest.
Qed.

Lemma alternating_prefix (l : list bool) (p : bool) :
  alternating (l ++ [p]) = true -> alternating l = true.
Proof.
  induction l as [|a l IH]; intros Halt; [reflexivity|].
  destruct l as [|b l]; [reflexivity|].
  change (negb (Bool.eqb a b) && alternating ((b :: l) ++ [p]) = true) in Halt.
  change (negb (Bool.eqb a b) && alternating (b :: l) = true).
  apply andb_true_iff in Halt. destruct Halt as [Hab Hrest].
  rewrite Hab. cbn [andb]. apply IH. exact Hrest.
Qed.

Lemma pump_first_snoc (l : list bool) (p : bool) :
  pump_first (l ++ [p]) = true ->
  pump_first ((l ++ [p]) ++ [negb p]) = true.
Proof.
  unfold pump_first. intros Hpf.
  apply andb_true_iff in Hpf. destruct Hpf as [Halt Hhd].
  rewrite (alternating_snoc l p Halt). cbn [andb].
  destruct l; cbn in *; assumption.
Qed.

Lemma pump_first_prefix (l : list bool) (p : bool) :
  pump_first (l ++ [p]) = true -> pump_first l = true.
Proof.
  unfold pump_first. intros Hpf.
  apply andb_true_iff in Hpf. destruct Hpf as [Halt Hhd].
  rewrite (alternating_prefix l p Halt). cbn [andb].
  destruct l; cbn in *; [reflexivity | assumption].
Qed.

(** A pump where a pump is due leaves a poll due. *)
Lemma next_after_pump (tr tr' : list Event) :
  next_is true tr ->
  pump_poll tr' = pump_poll tr ++ [true] ->
  next_is false tr'.
Proof.
  unfold next_is. intros Hn ->. exact (pump_first_snoc _ true Hn).
Qed.

(** A poll where a poll is due leaves a pump due. *)
Lemma next_after_poll (tr tr' : list Event) :
  next_is false tr ->
  pump_poll tr' = pump_poll tr ++ [false] ->
  next_is true tr'.
Proof.
  unfold next_is. intros Hn ->. exact (pump_first_snoc _ false Hn).
Qed.

Lemma next_same (p : bool) (tr tr' : list Event) :
  next_is p tr ->
  pump_poll tr' = pump_poll tr ->
  next_is p tr'.
Proof. unfold next_is. intros Hn ->. exact Hn. Qed.

Ltac pp_norm :=
  rewrite ?pump_poll_app; cbn [pump_poll app]; rewrite ?app_nil_r.

Ltac next_solve :=
  first
    [ eassumption
    | eapply next_same; [eassumption | pp_norm; reflexivity]
    | eapply next_after_pump; [eassumption | pp_norm; reflexivity]
    | eapply next_after_poll; [eassumption | pp_norm; reflexivity] ].

Ltac inv_solve :=
  lazymatch goal with
  | |- _ /\ _ => split; inv_solve
  | |- _ \/ _ => first [ solve [left; inv_solve] | solve [right; inv_solve] ]
  | |- next_is _ _ => next_solve
  | |- _ = _ => reflexivity
  end.

Lemma cycle_inv_step l sys sys' :
  cycle_inv sys ->
  sys_step l sys = Step sys' ->
  sys'.(st).(embed_closed_) = false ->
  cycle_inv sys'.
Proof.
  intros [Hcl Hcases] Hstep Hopen.
  destruct sys as [[b ml cl sem tm dh ap ge sm um sf us tq tk tr] pc mpc ph io].
  unfold between_tasks, before_pump, waiting, polling in Hcases.
  cbn [st embed_pc main_pc phase io_ready embed_closed_ embed_sem_ task_queue trace]
    in Hcl, Hcases.
  subst cl.
  repeat match goal with
    | Hd : _ \/ _ |- _ => destruct Hd
    | Hc : _ /\ _ |- _ => destruct Hc
    end; subst;
    destruct l as [[]| | |];
    step_cases Hstep;
    try discriminate Hopen;
    (split; [reflexivity|]);
    unfold between_tasks, before_pump, waiting, polling;
    cbn [st embed_pc main_pc phase io_ready embed_closed_ embed_sem_ task_queue trace];
    solve [inv_solve].
Qed.

(** [embed_closed_] is set once and stays set. *)
Lemma closed_step l sys sys' :
  sys_step l sys = Step sys' ->
  sys.(st).(embed_closed_) = true ->
  sys'.(st).(embed_closed_) = true.
Proof.
  intros Hstep Hcl.
  destruct sys as [[b ml cl sem tm dh ap ge sm um sf us tq tk tr] pc mpc ph io].
  cbn in Hcl. subst cl.
  destruct l as [[]| | |]; step_cases Hstep; reflexivity.
Qed.

Lemma closed_exec ls : forall sys sys',
  exec ls sys = Step sys' ->
  sys.(st).(embed_closed_) = true ->
  sys'.(st).(embed_closed_) = true.
Proof.
  induction ls as [|l ls IH]; intros sys sys' Hex Hcl; cbn in Hex.
  - injection Hex as <-. exact Hcl.
  - destruct (sys_step l sys) as [sys1| |] eqn:Hstep; try discriminate Hex.
    exact (IH sys1 sys' Hex (closed_step l sys sys1 Hstep Hcl)).
Qed.

Lemma cycle_inv_exec ls : forall sys sys',
  cycle_inv sys ->
  exec ls sys = Step sys' ->
  sys'.(st).(embed_closed_) = false ->
  cycle_inv sys'.
Proof.
  induction ls as [|l ls IH]; intros sys sys' Hinv Hex Hopen; cbn in Hex.
  - injection Hex as <-. exact Hinv.
  - destruct (sys_step l sys) as [sys1| |] eqn:Hstep; try discriminate Hex.
    apply (IH sys1 sys'); [|exact Hex|exact Hopen].
    apply (cycle_inv_step l sys sys1 Hinv Hstep).
    destruct (embed_closed_ (st sys1)) eqn:Hcl1; [|reflexivity].
    rewrite (closed_exec ls sys1 sys' Hex Hcl1) in Hopen. discriminate Hopen.
Qed.

Lemma cycle_inv_new (s0 : State) : fresh s0 -> cycle_inv (System_new s0).
Proof.
  intros (Hcl & _ & _ & Hq & Hpp).
  split; [exact Hcl|]. left. cbn.
  repeat split; try assumption.
  unfold next_is. rewrite Hpp. reflexivity.
Qed.

Lemma cycle_inv_pump_first (sys : System) :
  cycle_inv sys -> pump_first (pump_poll sys.(st).(trace)) = true.
Proof.
  unfold cycle_inv, between_tasks, before_pump, next_is.
  intros [_ Hcases].
  repeat match goal with
    | Hd : _ \/ _ |- _ => destruct Hd
    | Hc : _ /\ _ |- _ => destruct Hc
    end;
    eapply pump_first_prefix; eassumption.
Qed.

(** C2, amended: on every schedule, from the construction of the core up to
    the moment the destructor sets [embed_closed_], the pumps and the polls
    of the trace alternate, and the first of them is a pump. *)
Theorem pump_poll_alternate_until_teardown (s0 : State) (ls : list Label)
  (sys : System)
  (Hfresh : fresh s0)
  (Hexec : exec ls (System_new s0) = Step sys)
  (Hopen : sys.(st).(embed_closed_) = false) :
  alternating (pump_poll sys.(st).(trace)) = true
  /\ hd true (pump_poll sys.(st).(trace)) = true.
Proof.
  apply andb_true_iff.
  apply cycle_inv_pump_first.
  exact (cycle_inv_exec ls _ sys (cycle_inv_new s0 Hfresh) Hexec Hopen).
Qed.

Lemma pump_poll_alternate_until_teardown_witness :
  exists sys,
    exec (schedule_start
          ++ [L_Embed; L_Embed; L_Io; L_Embed; L_Embed;
              L_Host CallRunTask; L_Main; L_Main; L_Embed; L_Embed])
         (System_new example_state) = Step sys
    /\ pump_poll sys.(st).(trace) = [true; false; true; false]
    /\ alternating (pump_poll sys.(st).(trace)) = true.
Proof.
  eexists. split; [vm_compute; reflexivity|]. split; [reflexivity|].
  refine (proj1 (pump_poll_alternate_until_teardown example_state
                   (schedule_start
                    ++ [L_Embed; L_Embed; L_Io; L_Embed; L_Embed;
                        L_Host CallRunTask; L_Main; L_Main; L_Embed; L_Embed])
                   _ example_state_fresh _ _)).
  - vm_compute. reflexivity.
  - reflexivity.
Defined.

Lemma example_mid_poll_reached :
  exec (schedule_start ++ [L_Embed; L_Embed; L_Host CallDestroy; L_Main])
       (System_new example_state)
  = Step example_mid_poll.
Proof. vm_compute. reflexivity. Qed.

Lemma final_poll_posts_one_task_witness :
  exists sys',
    exec [L_Main; L_Main; L_Embed; L_Embed; L_Embed] example_mid_poll = Step sys'
    /\ sys'.(embed_pc) = E_Exited
    /\ count_post sys'.(st).(trace) = 1
    /\ sys'.(st).(task_queue) = [TaskUvRunOnce].
Proof.
  destruct (final_poll_posts_one_task example_mid_poll 0 MainThreadLoop)
    as [Hall [sys' (Hex & Hexit & Htr & Hq)]];
    [repeat split | reflexivity | reflexivity |].
  exists sys'. split; [exact Hex|]. split; [exact Hexit|].
  split; [|exact Hq].
  rewrite (Hall _ sys' Hex Hexit). reflexivity.
Defined.

(** ** Teardown *)

Ltac me_norm :=
  rewrite ?main_events_app;
  repeat match goal with
    | Hme : main_events _ = _ |- _ => rewrite Hme
    end;
  unfold main_events, teardown_head;
  cbn [filter is_embed_event negb firstn skipn app];
  rewrite ?app_nil_r;
  cbn [app];
  repeat (rewrite <- !app_assoc; cbn [app]).

Ltac td_solve :=
  lazymatch goal with
  | |- _ /\ _ => split; td_solve
  | |- _ \/ _ => first [ solve [left; td_solve] | solve [right; td_solve] ]
  | |- exists _, _ => eexists; td_solve
  | |- Forall _ _ =>
      first [ eassumption
            | constructor
            | apply Forall_app; split;
              [eassumption | repeat constructor] ]
  | |- _ = _ => first [ reflexivity | assumption ]
  end.

Lemma teardown_inv_step base l sys sys' :
  teardown_inv base sys ->
  sys_step l sys = Step sys' ->
  teardown_inv base sys'.
Proof.
  intros [Hph Hcases] Hstep.
  destruct sys as [[b ml cl sem tm dh ap ge sm um sf us tq tk tr] pc mpc ph io].
  cbn [st embed_pc main_pc phase io_ready embed_closed_ embed_sem_ task_queue trace]
    in Hph, Hcases.
  subst ph.
  unfold Destroy_ops, teardown_head, UvRunOnce_ops in Hcases.
  cbn [skipn firstn app] in Hcases.
  repeat match goal with
    | Hd : _ \/ _ |- _ => destruct Hd
    | Hc : _ /\ _ |- _ => destruct Hc
    | He : exists _, _ |- _ => destruct He
    end; subst;
    destruct l as [[]| | |];
    step_cases Hstep;
    unfold teardown_inv, Destroy_ops, UvRunOnce_ops;
    cbn [st embed_pc main_pc phase io_ready embed_closed_ embed_sem_ task_queue
         trace timer_running idle_timer_];
    me_norm;
    solve [td_solve].
Qed.

Lemma teardown_inv_exec base ls : forall sys sys',
  teardown_inv base sys ->
  exec ls sys = Step sys' ->
  teardown_inv base sys'.
Proof.
  induction ls as [|l ls IH]; intros sys sys' Hinv Hex; cbn in Hex.
  - injection Hex as <-. exact Hinv.
  - destruct (sys_step l sys) as [sys1| |] eqn:Hstep; try discriminate Hex.
    exact (IH sys1 sys' (teardown_inv_step base l sys sys1 Hinv Hstep) Hex).
Qed.

(** What holds when the destructor has returned. *)
Lemma teardown_inv_done base sys :
  teardown_inv base sys ->
  sys.(main_pc) = [] ->
  exists drained,
    main_events sys.(st).(trace)
    = base ++ teardown_head ++ drained ++ [EvSemDestroy; EvTimerStop]
    /\ Forall is_pump_event drained
    /\ sys.(st).(embed_closed_) = true
    /\ sys.(embed_pc) = E_Exited
    /\ sys.(st).(embed_sem_) = None
    /\ sys.(st).(task_queue) = []
    /\ timer_running sys.(st) = false.
Proof.
  intros [_ Hcases] Hdone.
  unfold Destroy_ops, UvRunOnce_ops in Hcases. cbn [skipn app] in Hcases.
  rewrite Hdone in Hcases.
  repeat match goal with
    | Hd : _ \/ _ |- _ => destruct Hd
    | Hc : _ /\ _ |- _ => destruct Hc
    | He : exists _, _ |- _ => destruct He
    end;
    try discriminate.
  eexists. repeat split; eassumption.
Qed.

Lemma exec_app (l1 l2 : list Label) : forall sys sys1,
  exec l1 sys = Step sys1 ->
  exec (l1 ++ l2) sys = exec l2 sys1.
Proof.
  induction l1 as [|l l1 IH]; intros sys sys1 Hex; cbn in Hex |- *.
  - injection Hex as <-. reflexivity.
  - destruct (sys_step l sys) as [sys0| |]; try discriminate Hex.
    exact (IH sys0 sys1 Hex).
Qed.

(** Run the coming steps of a schedule on a state that is explicit enough. *)
Ltac exec_run :=
  repeat (cbn [exec sys_step];
          unfold host_step, main_step, embed_step, main_do, embed_do,
            PrepareMessageLoop_init, RunMessageLoop_capture, UvRunOnce_pump,
            uv_run, uv_sem_post, WakeupEmbedThread, WakeupMainThread,
            uv_sem_destroy, uv_timer_stop, UvRunOnce_ops, Destroy_ops;
          cbn [st embed_pc main_pc phase io_ready app skipn];
          run_m;
          cbn [Z.eqb orb andb fst snd];
          repeat match goal with
            | Hq : ?c = _ |- context [if ?c then _ else _] => rewrite Hq
            end).

Lemma reaches_stop_after (l1 : list Label) (sys sys1 : System) :
  exec l1 sys = Step sys1 ->
  sys1.(st).(idle_timer_) = sys.(st).(idle_timer_) ->
  reaches_stop sys1 ->
  reaches_stop sys.
Proof.
  intros Hex Htimer (ls & sys' & Hex' & Hstop & Htimer').
  exists (l1 ++ ls), sys'. split; [|split; [exact Hstop | congruence]].
  rewrite (exec_app l1 ls sys sys1 Hex). exact Hex'.
Qed.

(** The draining of the host loop ends, and the semaphore is destroyed. *)
Lemma drain_reaches_stop (q : list Task) : forall sys,
  sys.(st).(task_queue) = q ->
  sys.(main_pc) = OpDrain :: skipn 5 Destroy_ops ->
  sys.(st).(global_env) <> None ->
  sys.(st).(message_loop_) <> None ->
  sys.(st).(embed_sem_) <> None ->
  reaches_stop sys.
Proof.
  induction q as [|t q IH];
    intros [[b ml cl sem tm dh ap ge sm um sf us tq tk tr] pc mpc ph io]
           Hq Hmain Henv Hloop Hsem;
    cbn in Hq, Hmain, Henv, Hloop, Hsem; subst tq mpc;
    destruct ge as [env|]; try (exfalso; apply Henv; reflexivity);
    destruct ml as [ml|]; try (exfalso; apply Hloop; reflexivity);
    destruct sem as [n|]; try (exfalso; apply Hsem; reflexivity).
  - exists [L_Main; L_Main]. eexists.
    split; [exec_run; reflexivity | split; reflexivity].
  - destruct t.
    destruct us as [|[r f] us];
      [destruct (negb (sf =? 0)%Z) eqn:Hc
      |destruct ((r =? 0)%Z || negb (f =? 0)%Z) eqn:Hc];
      (eapply (reaches_stop_after [L_Main; L_Main; L_Main]);
       [exec_run; reflexivity
       |reflexivity
       |apply IH; cbn; first [reflexivity | discriminate]]).
Qed.

(** Whatever the embed thread is doing, the destructor gets to its last
    statement. *)
Lemma destructor_reaches_stop (sys : System) :
  sys.(main_pc) = Destroy_ops ->
  sys.(st).(global_env) <> None ->
  sys.(st).(message_loop_) <> None ->
  sys.(st).(embed_sem_) <> None ->
  sys.(embed_pc) <> E_NotStarted ->
  reaches_stop sys.
Proof.
  destruct sys as [[b ml cl sem tm dh ap ge sm um sf us tq tk tr] pc mpc ph io].
  cbn. intros -> Henv Hloop Hsem Hpc.
  destruct ge as [env|]; try (exfalso; apply Henv; reflexivity).
  destruct ml as [ml|]; try (exfalso; apply Hloop; reflexivity).
  destruct sem as [n|]; try (exfalso; apply Hsem; reflexivity).
  destruct pc; try (exfalso; apply Hpc; reflexivity).
  - eapply (reaches_stop_after [L_Main; L_Main; L_Main; L_Embed; L_Main; L_Main]);
      [exec_run; reflexivity
      |reflexivity
      |eapply drain_reaches_stop; cbn; first [reflexivity | discriminate]].
  - eapply (reaches_stop_after [L_Main; L_Main; L_Main; L_Embed; L_Embed; L_Embed;
                                L_Embed; L_Main; L_Main]);
      [exec_run; reflexivity
      |reflexivity
      |eapply drain_reaches_stop; cbn; first [reflexivity | discriminate]].
  - eapply (reaches_stop_after [L_Main; L_Main; L_Main; L_Embed; L_Embed; L_Embed;
                                L_Main; L_Main]);
      [exec_run; reflexivity
      |reflexivity
      |eapply drain_reaches_stop; cbn; first [reflexivity | discriminate]].
  - eapply (reaches_stop_after [L_Main; L_Main; L_Main; L_Embed; L_Embed;
                                L_Main; L_Main]);
      [exec_run; reflexivity
      |reflexivity
      |eapply drain_reaches_stop; cbn; first [reflexivity | discriminate]].
  - eapply (reaches_stop_after [L_Main; L_Main; L_Main; L_Main; L_Main]);
      [exec_run; reflexivity
      |reflexivity
      |eapply drain_reaches_stop; cbn; first [reflexivity | discriminate]].
Qed.

(** From its last statement the destructor returns if the idle timer has
    been through [uv_timer_init]. *)
Lemma stop_returns (sys : System) :
  reaches_stop sys ->
  sys.(st).(idle_timer_) <> TimerUninitialized ->
  returns sys.
Proof.
  intros (ls & sys' & Hex & Hstop & Htimer) Hvalid.
  rewrite <- Htimer in Hvalid.
  destruct sys' as [[b ml cl sem tm dh ap ge sm um sf us tq tk tr] pc mpc ph io].
  cbn in Hstop, Hvalid. subst mpc.
  destruct tm; try (exfalso; apply Hvalid; reflexivity);
    (eexists (ls ++ [L_Main]); eexists;
     split; [rewrite (exec_app ls [L_Main] sys _ Hex); exec_run; reflexivity
            |reflexivity]).
Qed.

(** What holds when the destructor stands before its last statement. *)
Lemma teardown_inv_at_stop base sys :
  teardown_inv base sys ->
  sys.(main_pc) = [OpTimerStop] ->
  exists drained,
    main_events sys.(st).(trace)
    = base ++ teardown_head ++ drained ++ [EvSemDestroy]
    /\ Forall is_pump_event drained
    /\ sys.(st).(embed_closed_) = true
    /\ sys.(embed_pc) = E_Exited
    /\ sys.(st).(embed_sem_) = None
    /\ sys.(st).(task_queue) = [].
Proof.
  intros [_ Hcases] Hstop.
  unfold Destroy_ops, UvRunOnce_ops in Hcases. cbn [skipn app] in Hcases.
  rewrite Hstop in Hcases.
  repeat match goal with
    | Hd : _ \/ _ |- _ => destruct Hd
    | Hc : _ /\ _ |- _ => destruct Hc
    | He : exists _, _ |- _ => destruct He
    end;
    try discriminate.
  eexists. repeat split; eassumption.
Qed.

Lemma example_teardown_reached :
  exec (schedule_start ++ [L_Embed; L_Embed; L_Host CallDestroy])
       (System_new example_state)
  = Step example_teardown.
Proof. vm_compute. reflexivity. Qed.

(** C8: from the entry into the destructor on, on every schedule, the main
    thread makes these calls in this order: it sets [embed_closed_], posts
    the semaphore, sends the dummy async, joins the embed thread, runs the
    host loop until idle, whose tasks are pumps, destroys the semaphore and
    stops the idle timer.  When it stands before the last of them, and when
    it has returned, the embed thread has exited, the semaphore is
    destroyed and the task queue is empty; at the return the idle timer
    does not run.  Whatever the embed thread was doing, the destructor gets
    to its last statement on some schedule, and it returns if the idle
    timer has been through [uv_timer_init], as it has in the privileged
    role. *)
Theorem destructor_steps_in_order (sys : System)
  (Hmain : sys.(main_pc) = Destroy_ops)
  (Hphase : sys.(phase) = Destroyed)
  (Henv : sys.(st).(global_env) <> None)
  (Hloop : sys.(st).(message_loop_) <> None)
  (Hsem : sys.(st).(embed_sem_) <> None)
  (Hthread : sys.(embed_pc) <> E_NotStarted) :
  (forall ls sys',
     exec ls sys = Step sys' ->
     sys'.(main_pc) = [] ->
     exists drained,
       main_events sys'.(st).(trace)
       = main_events sys.(st).(trace)
         ++ [EvSetClosed; EvSemPost; EvAsyncSend; EvThreadJoin; EvRunUntilIdle]
         ++ drained ++ [EvSemDestroy; EvTimerStop]
       /\ Forall is_pump_event drained
       /\ sys'.(st).(embed_closed_) = true
       /\ sys'.(embed_pc) = E_Exited
       /\ sys'.(st).(embed_sem_) = None
       /\ sys'.(st).(task_queue) = []
       /\ timer_running sys'.(st) = false)
  /\ (forall ls sys',
        exec ls sys = Step sys' ->
        sys'.(main_pc) = [OpTimerStop] ->
        exists drained,
          main_events sys'.(st).(trace)
          = main_events sys.(st).(trace)
            ++ [EvSetClosed; EvSemPost; EvAsyncSend; EvThreadJoin; EvRunUntilIdle]
            ++ drained ++ [EvSemDestroy]
          /\ Forall is_pump_event drained
          /\ sys'.(st).(embed_closed_) = true
          /\ sys'.(embed_pc) = E_Exited
          /\ sys'.(st).(embed_sem_) = None
          /\ sys'.(st).(task_queue) = [])
  /\ (exists ls sys',
        exec ls sys = Step sys' /\ sys'.(main_pc) = [OpTimerStop])
  /\ (sys.(st).(idle_timer_) <> TimerUninitialized ->
      exists ls sys', exec ls sys = Step sys' /\ sys'.(main_pc) = []).
Proof.
  assert (Hinv : teardown_inv (main_events sys.(st).(trace)) sys).
  { split; [exact Hphase|]. left. split; [exact Hmain | reflexivity]. }
  pose proof (destructor_reaches_stop sys Hmain Henv Hloop Hsem Hthread) as Hstop.
  split; [|split; [|split]].
  - intros ls sys' Hex Hdone.
    exact (teardown_inv_done _ sys'
             (teardown_inv_exec _ ls sys sys' Hinv Hex) Hdone).
  - intros ls sys' Hex Hlast.
    exact (teardown_inv_at_stop _ sys'
             (teardown_inv_exec _ ls sys sys' Hinv Hex) Hlast).
  - destruct Hstop as (ls & sys' & Hex & Hlast & _).
    exists ls, sys'. split; assumption.
  - intros Hvalid. exact (stop_returns sys Hstop Hvalid).
Qed.

Lemma destructor_steps_in_order_witness :
  (exists sys',
     exec [L_Main; L_Main; L_Main; L_Embed; L_Embed; L_Embed; L_Main; L_Main;
           L_Main; L_Main; L_Main; L_Main; L_Main; L_Main] example_teardown
     = Step sys'
     /\ main_events sys'.(st).(trace)
        = main_events example_teardown.(st).(trace)
          ++ [EvSetClosed; EvSemPost; EvAsyncSend; EvThreadJoin; EvRunUntilIdle]
          ++ [EvEnterContext 0; EvUvRun 1; EvSemPost]
          ++ [EvSemDestroy; EvTimerStop]
     /\ sys'.(embed_pc) = E_Exited
     /\ sys'.(st).(embed_sem_) = None
     /\ timer_running sys'.(st) = false)
  /\ (exists ls sys',
        exec ls example_teardown = Step sys' /\ sys'.(main_pc) = []).
Proof.
  destruct (destructor_steps_in_order example_teardown)
    as (Hall & _ & _ & Hreturns);
    [reflexivity | reflexivity | discriminate | discriminate | discriminate
    | discriminate |].
  split; [|apply Hreturns; discriminate].
  destruct (exec [L_Main; L_Main; L_Main; L_Embed; L_Embed; L_Embed; L_Main;
                  L_Main; L_Main; L_Main; L_Main; L_Main; L_Main; L_Main]
                 example_teardown) as [sys'| |] eqn:E;
    [|vm_compute in E; discriminate E ..].
  pose proof (Hall _ sys' E) as Hpost.
  vm_compute in E. injection E as <-.
  destruct (Hpost eq_refl) as (drained & _ & _ & _ & Hpc & Hs & _ & Ht).
  eexists. split; [reflexivity|]. split; [reflexivity|].
  exact (conj Hpc (conj Hs Ht)).
Defined.

(** * Further properties of the code: proofs *)

(** ** The runtime initializer *)

Arguments count_create : simpl never.
Arguments count_pumps : simpl never.
Arguments count_quit : simpl never.

Lemma count_create_app (a b : list Event) :
  count_create (a ++ b) = count_create a + count_create b.
Proof. unfold count_create. rewrite filter_app, length_app. reflexivity. Qed.

Lemma timer_arms_app (a b : list Event) :
  timer_arms (a ++ b) = timer_arms a ++ timer_arms b.
Proof. apply filter_app. Qed.

(** X1: [Initialize] sets up and starts the idle timer, 5000 ms first and
    5000 ms repeat, in the privileged role and only there: in the renderer
    role it makes no timer call and leaves [idle_timer_] as it found it. *)
Theorem Initialize_arms_idle_timer_by_role :
  forall (H : Host) (a0 : StringType os) (rest : list (StringType os)) (s : State),
    exists s',
      Initialize (a0 :: rest) s = Ok (tt, s')
      /\ timer_arms s'.(trace)
         = timer_arms s.(trace)
           ++ (if s.(is_browser_) then [EvTimerInit; EvTimerStart 5000 5000]
               else [])
      /\ s'.(idle_timer_)
         = (if s.(is_browser_) then TimerActive 5000 5000 else s.(idle_timer_)).
Proof.
  intros H a0 rest s.
  exists (Initialize_post a0 rest s). split; [apply Initialize_run|].
  destruct s as [b ml cl sem tm dh ap ge sm um sf us tq tk tr].
  unfold Initialize_post.
  destruct b; cbn; rewrite !timer_arms_app; cbn; rewrite ?app_nil_r; auto.
Qed.

(** X2: on an empty argument vector [Initialize] faults at [str_argv[0]];
    on any other it calls [node::CreateEnvironment] once, with the vector
    [node::Init] left both as the arguments and as the execution
    arguments, stores the result in [global_env], and leaves the members
    of the loop integration alone. *)
Theorem Initialize_creates_one_environment :
  forall (H : Host) (str_argv : list (StringType os)) (s : State),
    match str_argv with
    | [] => Initialize str_argv s = Crash (OutOfRange "str_argv[0]")
    | a0 :: rest =>
        exists s',
          Initialize str_argv s = Ok (tt, s')
          /\ count_create s'.(trace) = S (count_create s.(trace))
          /\ (let argv :=
                fst (node_Init (arg_to_utf8 a0 :: entry_script s.(is_browser_) a0
                                :: map arg_to_utf8 rest)) in
              last s'.(trace) EvV8Initialize = EvCreateEnvironment argv argv
              /\ s'.(global_env) = Some (CreateEnvironment argv argv))
          /\ s'.(message_loop_) = s.(message_loop_)
          /\ s'.(embed_closed_) = s.(embed_closed_)
          /\ s'.(embed_sem_) = s.(embed_sem_)
          /\ s'.(task_queue) = s.(task_queue)
          /\ s'.(tokens) = s.(tokens)
    end.
Proof.
  intros H [|a0 rest] s; [reflexivity|].
  exists (Initialize_post a0 rest s). split; [apply Initialize_run|].
  destruct s as [b ml cl sem tm dh ap ge sm um sf us tq tk tr].
  unfold Initialize_post.
  destruct b; cbn; rewrite !count_create_app; unfold count_create; cbn;
    rewrite ?last_last;
    repeat split; try lia;
    match goal with
    | |- last (?l ++ [?a; ?b; ?c]) _ = _ =>
        change (l ++ [a; b; c]) with (l ++ [a; b] ++ [c]);
        rewrite app_assoc, last_last; reflexivity
    end.
Qed.

(** ** The context binder *)

Lemma get_set_token_same (c : ContextId) (t : SecurityToken)
  (l : list (ContextId * SecurityToken)) :
  get_token c (set_token c t l) = t.
Proof.
  induction l as [|[c' t'] l IH]; cbn.
  - rewrite Nat.eqb_refl. reflexivity.
  - destruct (c' =? c) eqn:E; cbn.
    + rewrite Nat.eqb_refl. reflexivity.
    + rewrite E. exact IH.
Qed.

Lemma get_set_token_other (c c' : ContextId) (t : SecurityToken)
  (l : list (ContextId * SecurityToken)) :
  c' <> c ->
  get_token c' (set_token c t l) = get_token c' l.
Proof.
  intros Hne.
  assert (Hcc : (c =? c') = false) by (apply Nat.eqb_neq; congruence).
  induction l as [|[c1 t1] l IH]; cbn.
  - rewrite Hcc. reflexivity.
  - destruct (c1 =? c) eqn:E; cbn.
    + apply Nat.eqb_eq in E. subst c1. rewrite Hcc. reflexivity.
    + destruct (c1 =? c'); [reflexivity | exact IH].
Qed.

Section BindToMore.
Context {H : Host}.

Lemma BindTo_post_token frame c env s :
  get_token c (BindTo_post frame c env s).(tokens)
  = get_token env.(env_context) s.(tokens).
Proof.
  destruct s as [b ml cl sem tm dh ap ge sm um sf us tq tk tr]. cbn.
  apply get_set_token_same.
Qed.

Lemma BindTo_post_other frame c env s c' :
  c' <> c ->
  get_token c' (BindTo_post frame c env s).(tokens) = get_token c' s.(tokens).
Proof.
  intros Hne.
  destruct s as [b ml cl sem tm dh ap ge sm um sf us tq tk tr]. cbn.
  apply get_set_token_other. exact Hne.
Qed.

(** A token that is the environment's stays so through a bind. *)
Lemma BindTo_post_shared frame c env s c' :
  get_token c' s.(tokens) = get_token env.(env_context) s.(tokens) ->
  get_token c' (BindTo_post frame c env s).(tokens)
  = get_token env.(env_context) s.(tokens).
Proof.
  intros Hshared.
  destruct (Nat.eq_dec c' c) as [->|Hne].
  - apply BindTo_post_token.
  - rewrite BindTo_post_other by exact Hne. exact Hshared.
Qed.

Lemma BindTo_post_frame frame c env s :
  (BindTo_post frame c env s).(global_env) = s.(global_env)
  /\ count_create (BindTo_post frame c env s).(trace) = count_create s.(trace).
Proof.
  destruct s as [b ml cl sem tm dh ap ge sm um sf us tq tk tr].
  unfold BindTo_post, BindTo_events. cbn.
  rewrite count_create_app. unfold count_create. cbn.
  split; [reflexivity | lia].
Qed.

(** Binding a list of frames, with the environment in place. *)
Lemma BindTo_all_run (frames : list WebFrame) : forall (env : Environment) (s : State),
  s.(global_env) = Some env ->
  exists s',
    BindTo_all frames s = Ok (tt, s')
    /\ s'.(global_env) = Some env
    /\ count_create s'.(trace) = count_create s.(trace)
    /\ (forall c,
          get_token c s.(tokens) = get_token env.(env_context) s.(tokens) ->
          get_token c s'.(tokens) = get_token env.(env_context) s.(tokens))
    /\ (forall frame c,
          In frame frames ->
          frame.(mainWorldScriptContext) = Some c ->
          get_token c s'.(tokens) = get_token env.(env_context) s.(tokens)).
Proof.
  induction frames as [|frame frames IH]; intros env s Henv.
  - exists s. cbn. repeat split; auto. intros frame c [].
  - destruct (mainWorldScriptContext frame) as [c|] eqn:Hctx.
    + pose (s1 := BindTo_post frame c env s).
      assert (Henv1 : s1.(global_env) = Some env).
      { unfold s1. rewrite (proj1 (BindTo_post_frame frame c env s)). exact Henv. }
      assert (Hown : get_token env.(env_context) s1.(tokens)
                     = get_token env.(env_context) s.(tokens)).
      { apply BindTo_post_shared. reflexivity. }
      destruct (IH env s1 Henv1) as (s' & Hrun & Henv' & Hcnt & Hkeep & Hall).
      exists s'. split; [|split; [exact Henv'|split; [|split]]].
      * cbn [BindTo_all]. unfold bind.
        rewrite (BindTo_run frame c env s Hctx Henv). exact Hrun.
      * rewrite Hcnt. apply (proj2 (BindTo_post_frame frame c env s)).
      * intros c' Hshared. rewrite <- Hown. apply Hkeep. rewrite Hown.
        apply BindTo_post_shared. exact Hshared.
      * intros f c' [<-|Hin] Hc'.
        -- rewrite Hctx in Hc'. injection Hc' as <-.
           rewrite <- Hown. apply Hkeep. rewrite Hown. apply BindTo_post_token.
        -- rewrite <- Hown. exact (Hall f c' Hin Hc').
    + destruct (IH env s Henv) as (s' & Hrun & Henv' & Hcnt & Hkeep & Hall).
      exists s'. split; [|split; [exact Henv'|split; [exact Hcnt|split]]].
      * cbn [BindTo_all]. unfold bind, BindTo. rewrite Hctx. exact Hrun.
      * exact Hkeep.
      * intros f c' [<-|Hin] Hc'; [congruence | exact (Hall f c' Hin Hc')].
Qed.

End BindToMore.

(** X3: a bind gives the frame's context the security token of the
    environment's context, and changes the token of no other context, the
    environment's own included; [global_env] is left as it was. *)
Theorem BindTo_overwrites_one_token (H : Host) (frame : WebFrame) (c : ContextId)
  (env : Environment) (s : State)
  (Hctx : frame.(mainWorldScriptContext) = Some c)
  (Henv : s.(global_env) = Some env) :
  exists s',
    BindTo frame s = Ok (tt, s')
    /\ get_token c s'.(tokens) = get_token env.(env_context) s.(tokens)
    /\ (forall c', c' <> c -> get_token c' s'.(tokens) = get_token c' s.(tokens))
    /\ get_token env.(env_context) s'.(tokens)
       = get_token env.(env_context) s.(tokens)
    /\ s'.(global_env) = s.(global_env).
Proof.
  exists (BindTo_post frame c env s).
  split; [exact (BindTo_run frame c env s Hctx Henv)|].
  split; [apply BindTo_post_token|].
  split; [intros c' Hne; apply BindTo_post_other; exact Hne|].
  split; [apply BindTo_post_shared; reflexivity|].
  apply (proj1 (BindTo_post_frame frame c env s)).
Qed.

Lemma BindTo_overwrites_one_token_witness :
  exists s',
    @BindTo (Concrete.posix_host None) (mkWebFrame (Some 7) "file:///tmp/a.html")
      (set_tokens [(0, 41%Z); (7, 99%Z); (8, 5%Z)] example_state) = Ok (tt, s')
    /\ get_token 7 s'.(tokens) = 41%Z
    /\ get_token 8 s'.(tokens) = 5%Z.
Proof.
  destruct (BindTo_overwrites_one_token (Concrete.posix_host None)
              (mkWebFrame (Some 7) "file:///tmp/a.html") 7
              (Concrete.create_environment
                 ["/app/bin/app"; "/app/bin/resources/browser/atom/atom.js"; "--flag"]
                 ["/app/bin/app"; "/app/bin/resources/browser/atom/atom.js"; "--flag"])
              (set_tokens [(0, 41%Z); (7, 99%Z); (8, 5%Z)] example_state)
              eq_refl eq_refl)
    as (s' & Hrun & Hc & Hother & _).
  exists s'. split; [exact Hrun|]. split; [exact Hc|].
  rewrite (Hother 8%nat) by discriminate. reflexivity.
Defined.

(** X4: after the host has bound any list of frames, every frame of the
    list that has a context holds the environment's security token, frames
    with an empty context having been passed over; no bind faults, and the
    environment's token is the one it had before. *)
Theorem BindTo_all_shares_token (H : Host) (frames : list WebFrame)
  (env : Environment) (s : State)
  (Henv : s.(global_env) = Some env) :
  exists s',
    BindTo_all frames s = Ok (tt, s')
    /\ get_token env.(env_context) s'.(tokens)
       = get_token env.(env_context) s.(tokens)
    /\ (forall frame c,
          In frame frames ->
          frame.(mainWorldScriptContext) = Some c ->
          get_token c s'.(tokens) = get_token env.(env_context) s.(tokens)).
Proof.
  destruct (BindTo_all_run frames env s Henv)
    as (s' & Hrun & _ & _ & Hkeep & Hall).
  exists s'. split; [exact Hrun|]. split; [|exact Hall].
  apply Hkeep. reflexivity.
Qed.

Lemma BindTo_all_shares_token_witness :
  exists s',
    @BindTo_all (Concrete.posix_host None)
      [mkWebFrame (Some 7) "file:///tmp/a.html"; mkWebFrame None "about:blank";
       mkWebFrame (Some 8) "file:///tmp/b.html"]
      (set_tokens [(0, 41%Z); (7, 99%Z); (8, 5%Z)] example_state) = Ok (tt, s')
    /\ get_token 7 s'.(tokens) = 41%Z
    /\ get_token 8 s'.(tokens) = 41%Z.
Proof.
  destruct (BindTo_all_shares_token (Concrete.posix_host None)
              [mkWebFrame (Some 7) "file:///tmp/a.html"; mkWebFrame None "about:blank";
               mkWebFrame (Some 8) "file:///tmp/b.html"]
              (Concrete.create_environment
                 ["/app/bin/app"; "/app/bin/resources/browser/atom/atom.js"; "--flag"]
                 ["/app/bin/app"; "/app/bin/resources/browser/atom/atom.js"; "--flag"])
              (set_tokens [(0, 41%Z); (7, 99%Z); (8, 5%Z)] example_state)
              eq_refl)
    as (s' & Hrun & _ & Hall).
  exists s'. split; [exact Hrun|]. split.
  - exact (Hall (mkWebFrame (Some 7) "file:///tmp/a.html") 7%nat
             (or_introl eq_refl) eq_refl).
  - exact (Hall (mkWebFrame (Some 8) "file:///tmp/b.html") 8%nat
             (or_intror (or_intror (or_introl eq_refl))) eq_refl).
Defined.

(** X5: one call of [Initialize] followed by the binding of any number of
    frames calls [node::CreateEnvironment] exactly once: no bind creates an
    environment or replaces [global_env]. *)
Theorem single_environment_for_all_frames :
  forall (H : Host) (a0 : StringType os) (rest : list (StringType os))
         (frames : list WebFrame) (s : State),
    exists s1 s2,
      Initialize (a0 :: rest) s = Ok (tt, s1)
      /\ BindTo_all frames s1 = Ok (tt, s2)
      /\ count_create s2.(trace) = S (count_create s.(trace))
      /\ s2.(global_env) = s1.(global_env).
Proof.
  intros H a0 rest frames s.
  pose (s1 := Initialize_post a0 rest s).
  assert (Henv : exists env, s1.(global_env) = Some env)
    by (eexists; reflexivity).
  destruct Henv as [env Henv].
  destruct (BindTo_all_run frames env s1 Henv) as (s2 & Hrun & Henv2 & Hcnt & _).
  exists s1, s2. split; [apply Initialize_run|]. split; [exact Hrun|].
  split; [|congruence].
  rewrite Hcnt. unfold s1, Initialize_post.
  destruct s as [b ml cl sem tm dh ap ge sm um sf us tq tk tr].
  destruct b; cbn; rewrite !count_create_app; unfold count_create; cbn; lia.
Qed.

(** ** One turn of the pump, and several *)

Lemma count_pumps_app (a b : list Event) :
  count_pumps (a ++ b) = count_pumps a + count_pumps b.
Proof. unfold count_pumps. rewrite filter_app, length_app. reflexivity. Qed.

Lemma UvRunOnce_run (env : Environment) (ml : MessageLoopRef) (n : nat) (s : State) :
  s.(global_env) = Some env ->
  s.(message_loop_) = Some ml ->
  s.(embed_sem_) = Some n ->
  UvRunOnce s = Ok (tt, UvRunOnce_post env n s).
Proof.
  intros Henv Hloop Hsem.
  unfold UvRunOnce, bind.
  rewrite (UvRunOnce_pump_run env s Henv)
    by (intros _; rewrite Hloop; discriminate).
  rewrite (uv_sem_post_run n); [reflexivity|].
  destruct s; exact Hsem.
Qed.

(** What [UvRunOnce_post] does to the members and to the counts. *)
Lemma UvRunOnce_post_fields (env : Environment) (n : nat) (s : State) :
  let s' := UvRunOnce_post env n s in
  s'.(global_env) = s.(global_env)
  /\ s'.(message_loop_) = s.(message_loop_)
  /\ s'.(embed_sem_) = Some (S n)
  /\ s'.(uv_script) = tl s.(uv_script)
  /\ s'.(stop_flag) = snd (next_uv s)
  /\ count_quit s'.(trace) = count_quit s.(trace) + (if quits s then 1 else 0)
  /\ count_pumps s'.(trace) = S (count_pumps s.(trace)).
Proof.
  destruct s as [b ml cl sem tm dh ap ge sm um sf us tq tk tr].
  unfold UvRunOnce_post, UvRunOnce_pump_post. run_m.
  fold (quits (mkState b ml cl sem tm dh ap ge sm um sf us tq tk tr)).
  repeat split.
  - rewrite !count_quit_app. unfold count_quit.
    destruct (quits _); cbn; lia.
  - rewrite !count_pumps_app. unfold count_pumps.
    destruct (quits _); cbn; lia.
Qed.

(** X6: what [UvRunOnce] returns in every state.  Without an environment
    it faults before the loop is run; with one, a [NULL] [message_loop_]
    is a fault only on a turn that finds the loop done, since only then is
    the pointer used; after that a semaphore that is not initialised is a
    fault; otherwise the turn succeeds. *)
Theorem UvRunOnce_result (s : State) :
  match s.(global_env) with
  | None => UvRunOnce s = Crash (NullDeref "global_env")
  | Some env =>
      match s.(message_loop_), quits s with
      | None, true => UvRunOnce s = Crash (NullDeref "message_loop_")
      | _, _ =>
          match s.(embed_sem_) with
          | None => UvRunOnce s = Crash (InvalidHandle "embed_sem_")
          | Some n => UvRunOnce s = Ok (tt, UvRunOnce_post env n s)
          end
      end
  end.
Proof.
  destruct s as [b ml cl sem tm dh ap ge sm um sf us tq tk tr].
  unfold quits, next_uv, UvRunOnce, UvRunOnce_post, UvRunOnce_pump_post,
    UvRunOnce_pump, uv_run, uv_sem_post, quits, next_uv.
  run_m.
  destruct ge as [env|]; [|reflexivity].
  destruct us as [|[r f] us]; run_m; cbn [fst snd tl].
  - destruct ((1 =? 0)%Z || negb (sf =? 0)%Z) eqn:Hq; run_m;
      destruct ml, sem; run_m; rewrite <- ?app_assoc, ?app_nil_r; reflexivity.
  - destruct ((r =? 0)%Z || negb (f =? 0)%Z) eqn:Hq; run_m;
      destruct ml, sem; run_m; rewrite <- ?app_assoc, ?app_nil_r; reflexivity.
Qed.

(** X7: [k] turns of the pump on a loop with at least [k] scripted
    outcomes run without a fault, call [uv_run] [k] times and use up [k]
    outcomes, call [QuitWhenIdle] once for every one of these outcomes that
    reports the loop done (a turn does not remember that an earlier one
    already asked to quit) and post the semaphore [k] times. *)
Theorem UvRunOnce_times_counts (k : nat) :
  forall (s : State) (env : Environment) (ml : MessageLoopRef) (n : nat)
    (Henv : s.(global_env) = Some env)
    (Hloop : s.(message_loop_) = Some ml)
    (Hsem : s.(embed_sem_) = Some n)
    (Hscript : k <= length s.(uv_script)),
  exists s',
    UvRunOnce_times k s = Ok (tt, s')
    /\ count_pumps s'.(trace) = count_pumps s.(trace) + k
    /\ count_quit s'.(trace)
       = count_quit s.(trace)
         + length (filter quit_outcome (firstn k s.(uv_script)))
    /\ s'.(uv_script) = skipn k s.(uv_script)
    /\ s'.(embed_sem_) = Some (n + k).
Proof.
  induction k as [|k IH]; intros s env ml n Henv Hloop Hsem Hscript.
  - exists s. cbn. rewrite !Nat.add_0_r. auto.
  - destruct (uv_script s) as [|o us] eqn:Hus; [cbn in Hscript; lia|].
    cbn in Hscript.
    pose proof (UvRunOnce_post_fields env n s) as Hf. cbv zeta in Hf.
    destruct Hf as (Fenv & Floop & Fsem & Fus & _ & Fquit & Fpump).
    rewrite Hus in Fus. cbn [tl] in Fus.
    destruct (IH (UvRunOnce_post env n s) env ml (S n)) as (s' & Hrun & Hp & Hq & Hu & Hs).
    { rewrite Fenv. exact Henv. }
    { rewrite Floop. exact Hloop. }
    { exact Fsem. }
    { rewrite Fus. lia. }
    exists s'. split; [|split; [|split; [|split]]].
    + cbn [UvRunOnce_times]. unfold bind.
      rewrite (UvRunOnce_run env ml n s Henv Hloop Hsem). exact Hrun.
    + rewrite Hp, Fpump. lia.
    + rewrite Hq, Fquit, Fus. cbn [firstn filter].
      assert (Hqo : quits s = quit_outcome o).
      { unfold quits, next_uv, quit_outcome. rewrite Hus. reflexivity. }
      rewrite Hqo. destruct (quit_outcome o); cbn [length]; lia.
    + rewrite Hu, Fus. reflexivity.
    + rewrite Hs. f_equal. lia.
Qed.

Lemma UvRunOnce_times_counts_witness :
  exists s',
    UvRunOnce_times 5
      (set_uv 0 [(1, 0); (1, 0); (1, 0); (1, 0); (0, 0)]%Z
         (set_embed_sem_ (Some 0)
            (set_message_loop_ (Some MainThreadLoop) example_state)))
    = Ok (tt, s')
    /\ count_pumps s'.(trace) = 5
    /\ count_quit s'.(trace) = 1
    /\ s'.(embed_sem_) = Some 5.
Proof.
  destruct (UvRunOnce_times_counts 5
              (set_uv 0 [(1, 0); (1, 0); (1, 0); (1, 0); (0, 0)]%Z
                 (set_embed_sem_ (Some 0)
                    (set_message_loop_ (Some MainThreadLoop) example_state)))
              (Concrete.create_environment
                 ["/app/bin/app"; "/app/bin/resources/browser/atom/atom.js"; "--flag"]
                 ["/app/bin/app"; "/app/bin/resources/browser/atom/atom.js"; "--flag"])
              MainThreadLoop 0 eq_refl eq_refl eq_refl)
    as (s' & Hrun & Hp & Hq & _ & Hs).
  - cbn. lia.
  - exists s'. split; [exact Hrun|]. split; [exact Hp|]. split; [exact Hq|exact Hs].
Defined.

(** X8: [RunMessageLoop] stores the loop of the calling thread before its
    first turn of the pump, so this turn never faults on [message_loop_];
    it faults without an environment and, when [PrepareMessageLoop] has
    not initialised the semaphore, at the post that ends the turn.
    Otherwise it runs [uv_run] once and leaves one post on the
    semaphore. *)
Theorem RunMessageLoop_result (s : State) :
  match s.(global_env), s.(embed_sem_) with
  | None, _ => RunMessageLoop s = Crash (NullDeref "global_env")
  | Some _, None => RunMessageLoop s = Crash (InvalidHandle "embed_sem_")
  | Some _, Some n =>
      exists s',
        RunMessageLoop s = Ok (tt, s')
        /\ s'.(message_loop_) = Some MainThreadLoop
        /\ count_pumps s'.(trace) = S (count_pumps s.(trace))
        /\ s'.(embed_sem_) = Some (S n)
  end.
Proof.
  destruct s as [b ml cl sem tm dh ap ge sm um sf us tq tk tr].
  unfold RunMessageLoop, RunMessageLoop_capture, UvRunOnce, UvRunOnce_pump,
    uv_run, uv_sem_post.
  run_m.
  destruct ge as [env|]; [|reflexivity].
  destruct us as [|[r f] us]; run_m;
    [destruct ((1 =? 0)%Z || negb (sf =? 0)%Z)
    |destruct ((r =? 0)%Z || negb (f =? 0)%Z)];
    run_m; destruct sem as [n|]; run_m; try reflexivity;
    (eexists; split; [reflexivity|]);
    run_m; rewrite !count_pumps_app; unfold count_pumps; cbn;
    repeat split; lia.
Qed.

(** ** Schedules without a fault *)

(** Unfold a step and split it into the cases of its statement and of what
    the statement finds in the state, whatever the outcome. *)
Ltac step_unfold Hstep :=
  unfold sys_step, host_step, main_step, embed_step, main_do, embed_do,
    PrepareMessageLoop_init, RunMessageLoop_capture, UvRunOnce_pump, uv_run,
    uv_sem_post, WakeupEmbedThread, WakeupMainThread, uv_sem_destroy,
    uv_timer_stop, PrepareMessageLoop_ops, RunMessageLoop_ops, UvRunOnce_ops,
    Destroy_ops in Hstep;
  cbn [st embed_pc main_pc phase io_ready app] in Hstep;
  run_m in Hstep;
  repeat match type of Hstep with
    | context [match ?x with _ => _ end] =>
        is_var x; destruct x; run_m in Hstep
    | context [match ?x with _ => _ end] =>
        lazymatch x with
        | context [match _ with _ => _ end] => fail
        | _ => idtac
        end;
        let Hq := fresh "Hq" in destruct x eqn:Hq; run_m in Hstep
    end.

(** Take the invariant apart into its shapes, with the pointers and
    handles it says are in place written as such. *)
Ltac safe_shapes Hcases :=
  unfold live, waiting, polling, teardown_tail, Destroy_ops, UvRunOnce_ops,
    RunMessageLoop_ops, PrepareMessageLoop_ops in Hcases;
  cbn [st embed_pc main_pc phase io_ready embed_closed_ embed_sem_ task_queue
       trace global_env message_loop_ dummy_uv_handle_ skipn app] in Hcases;
  repeat match goal with
    | Hd : _ \/ _ |- _ => destruct Hd
    | Hc : _ /\ _ |- _ => destruct Hc
    end;
  subst;
  repeat match goal with
    | Hn : ?x <> None |- _ =>
        is_var x; destruct x; [clear Hn | exfalso; apply Hn; reflexivity]
    | Hn : ?x <> E_NotStarted |- _ =>
        is_var x; destruct x; try (exfalso; apply Hn; reflexivity); clear Hn
    | Hn : Some _ <> None |- _ => clear Hn
    end.

Ltac safe_solve :=
  lazymatch goal with
  | |- _ /\ _ => split; safe_solve
  | |- _ \/ _ => first [ solve [left; safe_solve] | solve [right; safe_solve] ]
  | |- _ <> _ => discriminate
  | |- _ = _ => reflexivity
  end.

Lemma safe_inv_step l sys sys' :
  safe_inv sys ->
  sys_step l sys = Step sys' ->
  safe_inv sys'.
Proof.
  intros [Henv Hcases] Hstep.
  destruct sys as [[b ml cl sem tm dh ap ge sm um sf us tq tk tr] pc mpc ph io].
  cbn [st global_env] in Henv.
  destruct ge as [env|]; [clear Henv | exfalso; apply Henv; reflexivity].
  safe_shapes Hcases;
    destruct l as [[]| | |];
    step_unfold Hstep;
    try discriminate Hstep;
    injection Hstep as <-;
    unfold safe_inv, live, waiting, polling, teardown_tail, Destroy_ops,
      UvRunOnce_ops, RunMessageLoop_ops, PrepareMessageLoop_ops;
    cbn [st embed_pc main_pc phase io_ready embed_closed_ embed_sem_ task_queue
         trace global_env message_loop_ dummy_uv_handle_ skipn app];
    solve [safe_solve].
Qed.

(** No statement takes the idle timer back to before [uv_timer_init]. *)
Lemma timer_valid_step l sys sys' :
  sys_step l sys = Step sys' ->
  sys.(st).(idle_timer_) <> TimerUninitialized ->
  sys'.(st).(idle_timer_) <> TimerUninitialized.
Proof.
  intros Hstep Hvalid.
  destruct sys as [[b ml cl sem tm dh ap ge sm um sf us tq tk tr] pc mpc ph io].
  cbn in Hvalid.
  destruct l as [[]| | |]; step_cases Hstep; cbn;
    first [exact Hvalid | discriminate].
Qed.

(** Under the invariant, and with the idle timer initialised, no statement
    of either thread faults. *)
Lemma safe_inv_no_fault l sys :
  safe_inv sys ->
  sys.(st).(idle_timer_) <> TimerUninitialized ->
  faulted (sys_step l sys) = false.
Proof.
  intros [Henv Hcases] Hvalid.
  destruct (sys_step l sys) as [sys'| |f] eqn:Hstep; try reflexivity.
  exfalso.
  destruct sys as [[b ml cl sem tm dh ap ge sm um sf us tq tk tr] pc mpc ph io].
  cbn [st global_env] in Henv. cbn [st idle_timer_] in Hvalid.
  destruct ge as [env|]; [clear Henv | exfalso; apply Henv; reflexivity].
  destruct tm; try (exfalso; apply Hvalid; reflexivity); clear Hvalid;
  safe_shapes Hcases;
    destruct l as [[]| | |];
    step_unfold Hstep;
    discriminate Hstep.
Qed.

Lemma safe_inv_exec ls : forall sys sys',
  safe_inv sys ->
  exec ls sys = Step sys' ->
  safe_inv sys'.
Proof.
  induction ls as [|l ls IH]; intros sys sys' Hinv Hex; cbn in Hex.
  - injection Hex as <-. exact Hinv.
  - destruct (sys_step l sys) as [sys1| |] eqn:Hstep; try discriminate Hex.
    exact (IH sys1 sys' (safe_inv_step l sys sys1 Hinv Hstep) Hex).
Qed.

Lemma safe_inv_exec_no_fault ls : forall sys,
  safe_inv sys ->
  sys.(st).(idle_timer_) <> TimerUninitialized ->
  faulted (exec ls sys) = false.
Proof.
  induction ls as [|l ls IH]; intros sys Hinv Hvalid; cbn; [reflexivity|].
  pose proof (safe_inv_no_fault l sys Hinv Hvalid) as Hnf.
  destruct (sys_step l sys) as [sys1| |] eqn:Hstep;
    [|reflexivity|discriminate Hnf].
  exact (IH sys1 (safe_inv_step l sys sys1 Hinv Hstep)
            (timer_valid_step l sys sys1 Hstep Hvalid)).
Qed.

Lemma safe_inv_new (s0 : State) :
  fresh s0 -> s0.(global_env) <> None -> safe_inv (System_new s0).
Proof.
  intros (Hcl & _) Henv. split; [exact Henv|]. left. cbn. auto.
Qed.

(** X9: a core that [Initialize] has given its environment and whose idle
    timer has been through [uv_timer_init], as [Initialize] sees to in the
    privileged role, and that the host prepares, runs and destroys in this
    order, never faults, on any schedule of the two threads and at any
    point of its life, teardown included: no statement dereferences a
    [NULL] [global_env] or [message_loop_], none uses the semaphore before
    it is initialised or after it is destroyed, and the timer the
    destructor stops is an initialised one. *)
Theorem no_fault_on_any_schedule (s0 : State) (ls : list Label)
  (Hfresh : fresh s0)
  (Henv : s0.(global_env) <> None)
  (Htimer : s0.(idle_timer_) <> TimerUninitialized) :
  faulted (exec ls (System_new s0)) = false.
Proof.
  apply safe_inv_exec_no_fault;
    [exact (safe_inv_new s0 Hfresh Henv) | exact Htimer].
Qed.

Lemma no_fault_on_any_schedule_witness :
  faulted (exec (schedule_start
                 ++ [L_Embed; L_Embed; L_Io; L_Embed; L_Embed; L_Embed;
                     L_Host CallDestroy; L_Main; L_Main; L_Main; L_Embed;
                     L_Embed; L_Embed; L_Embed; L_Main; L_Main; L_Main; L_Main;
                     L_Main; L_Main; L_Main; L_Main; L_Main; L_Main; L_Main])
                (System_new example_state)) = false.
Proof.
  apply (no_fault_on_any_schedule example_state _ example_state_fresh);
    discriminate.
Defined.

(** X10: in every state a core reaches, on any schedule: the embed thread
    has left its loop only if [embed_closed_] is set, and [embed_closed_]
    is set only once the destructor runs; as long as the thread exists the
    dummy handle is registered; and the semaphore is found destroyed only
    after the thread has left, so the thread never waits on a destroyed
    semaphore. *)
Theorem lifecycle_invariants (s0 : State) (ls : list Label) (sys : System)
  (Hfresh : fresh s0)
  (Henv : s0.(global_env) <> None)
  (Hexec : exec ls (System_new s0) = Step sys) :
  (sys.(embed_pc) = E_Exited -> sys.(st).(embed_closed_) = true)
  /\ (sys.(st).(embed_closed_) = true -> sys.(phase) = Destroyed)
  /\ (sys.(embed_pc) <> E_NotStarted -> sys.(st).(dummy_uv_handle_) = true)
  /\ (sys.(embed_pc) <> E_NotStarted -> sys.(st).(embed_sem_) = None ->
        sys.(embed_pc) = E_Exited).
Proof.
  destruct (safe_inv_exec ls _ sys (safe_inv_new s0 Hfresh Henv) Hexec)
    as [_ Hcases].
  destruct sys as [[b ml cl sem tm dh ap ge sm um sf us tq tk tr] pc mpc ph io].
  safe_shapes Hcases; cbn;
    repeat split; intros; subst;
    try reflexivity; try congruence;
    repeat match goal with
      | Hx : _ \/ _ |- _ => destruct Hx
      end; congruence.
Qed.

Lemma lifecycle_invariants_witness :
  example_mid_poll.(embed_pc) <> E_NotStarted
  /\ example_mid_poll.(st).(dummy_uv_handle_) = true
  /\ example_mid_poll.(phase) = Destroyed.
Proof.
  destruct (lifecycle_invariants example_state
              (schedule_start ++ [L_Embed; L_Embed; L_Host CallDestroy; L_Main])
              example_mid_poll example_state_fresh)
    as (_ & Hclosed & Hdummy & _).
  - discriminate.
  - exact example_mid_poll_reached.
  - split; [discriminate|]. split; [apply Hdummy; discriminate|].
    apply Hclosed. reflexivity.
Defined.

(** ** The baton *)

(** X11: while the core runs and the destructor has not set
    [embed_closed_], exactly one baton exists on every schedule: either
    the main thread is inside [RunMessageLoop] or [UvRunOnce], or the
    semaphore holds one post, or the embed thread is between
    [uv_sem_wait] and [WakeupMainThread], or one pump task is queued.  So
    the semaphore never holds more than one post, the queue never more
    than one pump task, and the main thread never runs the loop while the
    embed thread polls it. *)
Theorem one_baton_while_running (s0 : State) (ls : list Label) (sys : System)
  (Hfresh : fresh s0)
  (Hexec : exec ls (System_new s0) = Step sys)
  (Hrun : sys.(phase) = Running)
  (Hopen : sys.(st).(embed_closed_) = false) :
  batons sys = 1.
Proof.
  destruct (cycle_inv_exec ls _ sys (cycle_inv_new s0 Hfresh) Hexec Hopen)
    as [_ Hcases].
  destruct sys as [[b ml cl sem tm dh ap ge sm um sf us tq tk tr] pc mpc ph io].
  unfold between_tasks, before_pump, waiting, polling in Hcases.
  cbn [st embed_pc main_pc phase io_ready embed_closed_ embed_sem_ task_queue trace]
    in Hrun, Hcases.
  subst ph.
  repeat match goal with
    | Hd : _ \/ _ |- _ => destruct Hd
    | Hc : _ /\ _ |- _ => destruct Hc
    end; subst; try discriminate; reflexivity.
Qed.

Lemma one_baton_while_running_witness :
  batons example_polling = 1 /\ is_polling example_polling.(embed_pc) = true.
Proof.
  split; [|reflexivity].
  apply (one_baton_while_running example_state
           (schedule_start ++ [L_Embed; L_Embed]) example_polling
           example_state_fresh);
    [vm_compute; reflexivity | reflexivity | reflexivity].
Defined.

(** X12: a running core whose destructor has not begun can be at rest,
    with neither thread able to move and no pump task for the host loop,
    in one way only: the embed thread is blocked inside [PollEvents],
    nothing is ready on the loop, the queue is empty and the semaphore
    holds no post.  No schedule leaves the embed thread stuck on the
    semaphore, and none loses a wake-up. *)
Theorem at_rest_only_inside_poll (s0 : State) (ls : list Label) (sys : System)
  (Hfresh : fresh s0)
  (Hexec : exec ls (System_new s0) = Step sys)
  (Hrun : sys.(phase) = Running)
  (Hopen : sys.(st).(embed_closed_) = false)
  (Hrest : quiescent sys) :
  sys.(embed_pc) = E_Polling
  /\ sys.(st).(async_pending) = false
  /\ sys.(io_ready) = false
  /\ sys.(st).(task_queue) = []
  /\ sys.(st).(embed_sem_) = Some 0.
Proof.
  destruct (cycle_inv_exec ls _ sys (cycle_inv_new s0 Hfresh) Hexec Hopen)
    as [_ Hcases].
  destruct Hrest as (Hm & He & Ht).
  destruct sys as [[b ml cl sem tm dh ap ge sm um sf us tq tk tr] pc mpc ph io].
  unfold between_tasks, before_pump, waiting, polling in Hcases.
  cbn [st embed_pc main_pc phase io_ready embed_closed_ embed_sem_ task_queue trace
       async_pending]
    in Hrun, Hcases |- *.
  subst ph.
  repeat match goal with
    | Hd : _ \/ _ |- _ => destruct Hd
    | Hc : _ /\ _ |- _ => destruct Hc
    end; subst; try discriminate;
    try (step_unfold Hm; discriminate Hm);
    try (step_unfold He; discriminate He);
    try (step_unfold Ht; discriminate Ht).
  step_unfold He; try discriminate He.
  apply orb_false_iff in Hq. destruct Hq as [-> ->]. auto.
Qed.

Lemma at_rest_only_inside_poll_witness :
  quiescent example_polling /\ example_polling.(embed_pc) = E_Polling.
Proof.
  assert (Hq : quiescent example_polling) by (repeat split).
  split; [exact Hq|].
  apply (at_rest_only_inside_poll example_state
           (schedule_start ++ [L_Embed; L_Embed]) example_polling
           example_state_fresh);
    [vm_compute; reflexivity | reflexivity | reflexivity | exact Hq].
Defined.

(** X13: when a descriptor of the loop becomes ready while the embed thread
    is blocked in [PollEvents], the thread returns and posts one task, and
    the run of this task by the host loop is one [UvRunOnce]; after it the
    queue is empty again, the thread is back at the test of its loop and
    the semaphore holds one post more. *)
Theorem wakeup_delivers_one_pump (sys : System) (env : Environment)
  (ml : MessageLoopRef) (n : nat)
  (Hpc : sys.(embed_pc) = E_Polling)
  (Hmain : sys.(main_pc) = [])
  (Hrun : sys.(phase) = Running)
  (Hqueue : sys.(st).(task_queue) = [])
  (Henv : sys.(st).(global_env) = Some env)
  (Hloop : sys.(st).(message_loop_) = Some ml)
  (Hsem : sys.(st).(embed_sem_) = Some n) :
  exists sys',
    exec [L_Io; L_Embed; L_Embed; L_Host CallRunTask; L_Main; L_Main] sys
    = Step sys'
    /\ sys'.(st).(trace)
       = sys.(st).(trace)
         ++ [EvPostTask; EvEnterContext env.(env_context);
             EvUvRun (fst (next_uv sys.(st)))]
         ++ (if quits sys.(st) then [EvQuitWhenIdle] else [])
         ++ [EvSemPost]
    /\ sys'.(embed_pc) = E_LoopTest
    /\ sys'.(main_pc) = []
    /\ sys'.(st).(task_queue) = []
    /\ sys'.(st).(embed_sem_) = Some (S n).
Proof.
  destruct sys as [[b ml' cl sem tm dh ap ge sm um sf us tq tk tr] pc mpc ph io].
  cbn in Hpc, Hmain, Hrun, Hqueue, Henv, Hloop, Hsem. subst.
  unfold quits, next_uv. cbn [st uv_script stop_flag trace].
  destruct ap;
    (destruct us as [|[r f] us]; cbn [fst snd];
     [destruct (negb (sf =? 0)%Z) eqn:Hc
     |destruct ((r =? 0)%Z || negb (f =? 0)%Z) eqn:Hc]);
    (eexists; split; [exec_run; reflexivity|]);
    cbn [st embed_pc main_pc trace task_queue embed_sem_ Z.eqb orb];
    rewrite ?Hc, <- ?app_assoc; cbn [app]; auto.
Qed.

Lemma wakeup_delivers_one_pump_witness :
  exists sys',
    exec [L_Io; L_Embed; L_Embed; L_Host CallRunTask; L_Main; L_Main]
         example_polling = Step sys'
    /\ count_post sys'.(st).(trace) = 1
    /\ count_pumps sys'.(st).(trace) = 2.
Proof.
  destruct (wakeup_delivers_one_pump example_polling
              (Concrete.create_environment
                 ["/app/bin/app"; "/app/bin/resources/browser/atom/atom.js"; "--flag"]
                 ["/app/bin/app"; "/app/bin/resources/browser/atom/atom.js"; "--flag"])
              MainThreadLoop 0 eq_refl eq_refl eq_refl eq_refl eq_refl eq_refl eq_refl)
    as (sys' & Hex & Htr & _).
  exists sys'. split; [exact Hex|]. rewrite Htr. split; reflexivity.
Defined.

(** No statement of the loop integration writes the role, the environment
    pointer, node's two switches or a security token, and none clears
    [embed_closed_]. *)
Lemma core_members_step l sys sys' :
  sys_step l sys = Step sys' ->
  sys'.(st).(is_browser_) = sys.(st).(is_browser_)
  /\ sys'.(st).(global_env) = sys.(st).(global_env)
  /\ sys'.(st).(g_standalone_mode) = sys.(st).(g_standalone_mode)
  /\ sys'.(st).(g_upstream_node_mode) = sys.(st).(g_upstream_node_mode)
  /\ sys'.(st).(tokens) = sys.(st).(tokens)
  /\ (sys.(st).(embed_closed_) = true -> sys'.(st).(embed_closed_) = true).
Proof.
  intros Hstep.
  destruct sys as [[b ml cl sem tm dh ap ge sm um sf us tq tk tr] pc mpc ph io].
  destruct l as [[]| | |]; step_cases Hstep; cbn; repeat split; auto.
Qed.

(** X14: what teardown and the loop leave alone, on any schedule from any
    state: the role flag, the shared environment (the destructor does not
    destroy or reset [global_env]), node's two switches and the security
    tokens keep their values, and [embed_closed_], once set, is never
    cleared. *)
Theorem core_leaves_environment_alone (sys sys' : System) (ls : list Label)
  (Hexec : exec ls sys = Step sys') :
  sys'.(st).(is_browser_) = sys.(st).(is_browser_)
  /\ sys'.(st).(global_env) = sys.(st).(global_env)
  /\ sys'.(st).(g_standalone_mode) = sys.(st).(g_standalone_mode)
  /\ sys'.(st).(g_upstream_node_mode) = sys.(st).(g_upstream_node_mode)
  /\ sys'.(st).(tokens) = sys.(st).(tokens)
  /\ (sys.(st).(embed_closed_) = true -> sys'.(st).(embed_closed_) = true).
Proof.
  revert sys Hexec.
  induction ls as [|l ls IH]; intros sys Hexec; cbn in Hexec.
  - injection Hexec as <-. repeat split; auto.
  - destruct (sys_step l sys) as [sys1| |] eqn:Hstep; try discriminate Hexec.
    destruct (core_members_step l sys sys1 Hstep) as (A1 & A2 & A3 & A4 & A5 & A6).
    destruct (IH sys1 Hexec) as (B1 & B2 & B3 & B4 & B5 & B6).
    repeat split; try congruence. auto.
Qed.

Lemma core_leaves_environment_alone_witness :
  exists sys',
    exec [L_Main; L_Main; L_Embed; L_Embed; L_Embed; L_Main; L_Main; L_Main;
          L_Main; L_Main; L_Main; L_Main; L_Main] example_mid_poll = Step sys'
    /\ sys'.(main_pc) = []
    /\ sys'.(st).(global_env) = example_state.(global_env)
    /\ sys'.(st).(embed_closed_) = true.
Proof.
  destruct (exec [L_Main; L_Main; L_Embed; L_Embed; L_Embed; L_Main; L_Main;
                  L_Main; L_Main; L_Main; L_Main; L_Main; L_Main]
                 example_mid_poll) as [sys'| |] eqn:E;
    [|vm_compute in E; discriminate E ..].
  destruct (core_leaves_environment_alone example_mid_poll sys' _ E)
    as (_ & Henv & _ & _ & _ & Hcl).
  exists sys'. split; [reflexivity|].
  split; [vm_compute in E; injection E as <-; reflexivity|].
  split; [rewrite Henv; reflexivity | exact (Hcl eq_refl)].
Defined.

(** ** After the destructor *)

(** X15: once the destructor has returned nothing of the core runs any
    more, on any schedule: the embed thread has left, the host loop holds
    no pump task and none can be posted, so no call is ever added to the
    trace.  The tasks [WakeupMainThread] posts hold a bare pointer to the
    object; none of them outlives it. *)
Theorem nothing_runs_after_destruction (s0 : State) (ls ls' : list Label)
  (sys sys' : System)
  (Hfresh : fresh s0)
  (Henv : s0.(global_env) <> None)
  (Hexec : exec ls (System_new s0) = Step sys)
  (Hphase : sys.(phase) = Destroyed)
  (Hdone : sys.(main_pc) = [])
  (Hlater : exec ls' sys = Step sys') :
  sys.(embed_pc) = E_Exited
  /\ sys.(st).(task_queue) = []
  /\ sys'.(st) = sys.(st)
  /\ sys'.(embed_pc) = E_Exited
  /\ sys'.(main_pc) = [].
Proof.
  pose proof (safe_inv_exec ls _ sys (safe_inv_new s0 Hfresh Henv) Hexec) as Hinv.
  assert (Hshape : sys.(embed_pc) = E_Exited /\ sys.(st).(task_queue) = []).
  { destruct Hinv as [_ Hcases].
    destruct sys as [[b ml cl sem tm dh ap ge sm um sf us tq tk tr] pc mpc ph io].
    cbn in Hphase, Hdone. subst ph mpc.
    safe_shapes Hcases; try discriminate; split; reflexivity. }
  destruct Hshape as [Hpc Hq]. split; [exact Hpc|]. split; [exact Hq|].
  clear Hexec Hinv Hq.
  revert sys Hphase Hdone Hpc Hlater.
  induction ls' as [|l ls' IH]; intros sys Hphase Hdone Hpc Hlater; cbn in Hlater.
  - injection Hlater as <-. auto.
  - destruct (sys_step l sys) as [sys1| |] eqn:Hstep; try discriminate Hlater.
    assert (Hsame : sys1.(st) = sys.(st) /\ sys1.(phase) = Destroyed
                    /\ sys1.(main_pc) = [] /\ sys1.(embed_pc) = E_Exited).
    { destruct sys as [s pc mpc ph io]. cbn in Hphase, Hdone, Hpc. subst.
      destruct l as [[]| | |]; cbn in Hstep; try discriminate Hstep.
      injection Hstep as <-. auto. }
    destruct Hsame as (Hst & Hph1 & Hm1 & Hpc1).
    destruct (IH sys1 Hph1 Hm1 Hpc1 Hlater) as (Hst' & Hpc' & Hm').
    rewrite Hst' , Hst. auto.
Qed.

Lemma nothing_runs_after_destruction_witness :
  exists sys sys',
    exec (schedule_start
          ++ [L_Embed; L_Embed; L_Host CallDestroy; L_Main; L_Main; L_Main;
              L_Embed; L_Embed; L_Embed; L_Main; L_Main; L_Main; L_Main; L_Main;
              L_Main; L_Main; L_Main])
         (System_new example_state) = Step sys
    /\ exec [L_Io; L_Io] sys = Step sys'
    /\ sys'.(st) = sys.(st)
    /\ sys.(st).(task_queue) = [].
Proof.
  destruct (exec (schedule_start
                  ++ [L_Embed; L_Embed; L_Host CallDestroy; L_Main; L_Main; L_Main;
                      L_Embed; L_Embed; L_Embed; L_Main; L_Main; L_Main; L_Main;
                      L_Main; L_Main; L_Main; L_Main])
                 (System_new example_state)) as [sys| |] eqn:E;
    [|vm_compute in E; discriminate E ..].
  destruct (exec [L_Io; L_Io] sys) as [sys'| |] eqn:E';
    [|vm_compute in E; injection E as <-; vm_compute in E'; discriminate E' ..].
  exists sys, sys'. split; [reflexivity|]. split; [exact E'|].
  assert (Hph : sys.(phase) = Destroyed /\ sys.(main_pc) = []).
  { vm_compute in E. injection E as <-. split; reflexivity. }
  destruct (nothing_runs_after_destruction example_state _ [L_Io; L_Io] sys sys'
              example_state_fresh ltac:(discriminate) E (proj1 Hph) (proj2 Hph) E')
    as (_ & Hq & Hst & _).
  split; [exact Hst | exact Hq].
Defined.

(** ** The idle timer *)

(** No statement of the loop integration sets up or starts a timer, and
    none makes a timer run that did not. *)
Lemma timer_untouched_step l sys sys' :
  sys_step l sys = Step sys' ->
  timer_arms sys'.(st).(trace) = timer_arms sys.(st).(trace)
  /\ (timer_running sys.(st) = false -> timer_running sys'.(st) = false).
Proof.
  intros Hstep.
  destruct sys as [[b ml cl sem tm dh ap ge sm um sf us tq tk tr] pc mpc ph io].
  destruct l as [[]| | |]; step_cases Hstep;
    cbn [st trace]; rewrite ?timer_arms_app; cbn; rewrite ?app_nil_r;
    split; auto; discriminate.
Qed.

Lemma timer_untouched_exec ls : forall sys sys',
  exec ls sys = Step sys' ->
  timer_arms sys'.(st).(trace) = timer_arms sys.(st).(trace)
  /\ (timer_running sys.(st) = false -> timer_running sys'.(st) = false).
Proof.
  induction ls as [|l ls IH]; intros sys sys' Hex; cbn in Hex.
  - injection Hex as <-. auto.
  - destruct (sys_step l sys) as [sys1| |] eqn:Hstep; try discriminate Hex.
    destruct (timer_untouched_step l sys sys1 Hstep) as [Ha Hr].
    destruct (IH sys1 sys' Hex) as [Ha' Hr'].
    split; [congruence | auto].
Qed.

(** X16: in the renderer role the idle timer is never set up and never
    runs: [Initialize] makes no timer call there, and no statement of
    either thread, the destructor's included, calls [uv_timer_init] or
    [uv_timer_start], on any schedule.  The handle is thus still
    uninitialised when the destructor calls [uv_timer_stop] on it. *)
Theorem renderer_has_no_idle_timer (H : Host) (a0 : StringType os)
  (rest : list (StringType os)) (s s1 : State) (ls : list Label) (sys : System)
  (Hrole : s.(is_browser_) = false)
  (Hoff : timer_running s = false)
  (Hinit : Initialize (a0 :: rest) s = Ok (tt, s1))
  (Hexec : exec ls (System_new s1) = Step sys) :
  timer_running sys.(st) = false
  /\ timer_arms sys.(st).(trace) = timer_arms s.(trace).
Proof.
  rewrite Initialize_run in Hinit. injection Hinit as <-.
  destruct (timer_untouched_exec ls _ sys Hexec) as [Ha Hr].
  cbn [System_new st] in Ha, Hr.
  assert (Hs1 : timer_running (Initialize_post a0 rest s) = false
                /\ timer_arms (Initialize_post a0 rest s).(trace)
                   = timer_arms s.(trace)).
  { destruct s as [b ml cl sem tm dh ap ge sm um sf us tq tk tr].
    cbn in Hrole. subst b. unfold Initialize_post. cbn.
    rewrite timer_arms_app. cbn. rewrite app_nil_r. auto. }
  destruct Hs1 as [Hoff1 Harm1].
  split; [exact (Hr Hoff1) | congruence].
Qed.

Lemma renderer_has_no_idle_timer_witness :
  exists s1 sys,
    @Initialize (Concrete.posix_host None) ["/app/bin/helper"]
      (NodeBindings_new false) = Ok (tt, s1)
    /\ exec (schedule_start ++ [L_Host CallDestroy; L_Main; L_Main; L_Main;
                                L_Embed; L_Main; L_Main; L_Main; L_Main])
            (System_new s1) = Step sys
    /\ sys.(main_pc) = [OpTimerStop]
    /\ sys.(st).(idle_timer_) = TimerUninitialized
    /\ timer_running sys.(st) = false
    /\ timer_arms sys.(st).(trace) = [].
Proof.
  eexists.
  destruct (exec (schedule_start ++ [L_Host CallDestroy; L_Main; L_Main; L_Main;
                                     L_Embed; L_Main; L_Main; L_Main; L_Main])
                 (System_new (@Initialize_post (Concrete.posix_host None)
                                "/app/bin/helper" [] (NodeBindings_new false))))
    as [sys| |] eqn:E; [|vm_compute in E; discriminate E ..].
  exists sys. split; [apply Initialize_run|]. split; [exact E|].
  destruct (renderer_has_no_idle_timer (Concrete.posix_host None)
              "/app/bin/helper" [] (NodeBindings_new false) _ _ sys
              eq_refl eq_refl (Initialize_run _ _ _) E) as [Hoff Harm].
  vm_compute in E. injection E as <-.
  split; [reflexivity|]. split; [reflexivity|].
  split; [exact Hoff | exact Harm].
Defined.

Lemma Initialize_post_fresh (H : Host) (a0 : StringType os)
  (rest : list (StringType os)) (s : State) :
  fresh s ->
  fresh (Initialize_post a0 rest s)
  /\ (Initialize_post a0 rest s).(global_env) <> None.
Proof.
  intros (Hcl & Hsem & Hml & Hq & Hpp).
  destruct s as [b ml cl sem tm dh ap ge sm um sf us tq tk tr].
  cbn in Hcl, Hsem, Hml, Hq, Hpp. subst.
  unfold Initialize_post, fresh.
  destruct b; cbn; rewrite ?pump_poll_app, Hpp; cbn;
    repeat split; discriminate.
Qed.

(** Under the invariant, the idle timer runs exactly as long as the
    destructor has not returned, if it did so before the step. *)
Lemma timer_kept_step l sys sys' :
  safe_inv sys ->
  timer_running sys.(st) = negb (destructor_returned sys) ->
  sys_step l sys = Step sys' ->
  timer_running sys'.(st) = negb (destructor_returned sys').
Proof.
  intros [Henv Hcases] Htimer Hstep.
  destruct sys as [[b ml cl sem tm dh ap ge sm um sf us tq tk tr] pc mpc ph io].
  cbn [st global_env] in Henv.
  destruct ge as [env|]; [clear Henv | exfalso; apply Henv; reflexivity].
  safe_shapes Hcases;
    cbn in Htimer;
    destruct l as [[]| | |];
    step_unfold Hstep;
    try discriminate Hstep;
    injection Hstep as <-;
    cbn; first [exact Htimer | discriminate Htimer | reflexivity].
Qed.

Lemma timer_kept_exec ls : forall sys sys',
  safe_inv sys ->
  timer_running sys.(st) = negb (destructor_returned sys) ->
  exec ls sys = Step sys' ->
  timer_running sys'.(st) = negb (destructor_returned sys').
Proof.
  induction ls as [|l ls IH]; intros sys sys' Hinv Htimer Hex; cbn in Hex.
  - injection Hex as <-. exact Htimer.
  - destruct (sys_step l sys) as [sys1| |] eqn:Hstep; try discriminate Hex.
    exact (IH sys1 sys' (safe_inv_step l sys sys1 Hinv Hstep)
              (timer_kept_step l sys sys1 Hinv Htimer Hstep) Hex).
Qed.

(** X17: in the privileged role the idle timer that [Initialize] starts
    runs in every state the core reaches until the destructor has run its
    last statement, and in none after: it runs on while the destructor
    waits for the embed thread and while it drains the host loop. *)
Theorem privileged_idle_timer_runs_until_destructor_returns (H : Host)
  (a0 : StringType os) (rest : list (StringType os)) (s s1 : State)
  (ls : list Label) (sys : System)
  (Hfresh : fresh s)
  (Hrole : s.(is_browser_) = true)
  (Hinit : Initialize (a0 :: rest) s = Ok (tt, s1))
  (Hexec : exec ls (System_new s1) = Step sys) :
  timer_running sys.(st) = negb (destructor_returned sys).
Proof.
  rewrite Initialize_run in Hinit. injection Hinit as <-.
  destruct (Initialize_post_fresh H a0 rest s Hfresh) as [Hfresh1 Henv1].
  apply (timer_kept_exec ls (System_new (Initialize_post a0 rest s)) sys);
    [exact (safe_inv_new _ Hfresh1 Henv1) | | exact Hexec].
  destruct s as [b ml cl sem tm dh ap ge sm um sf us tq tk tr].
  cbn in Hrole. subst b. reflexivity.
Qed.

Lemma privileged_idle_timer_runs_until_destructor_returns_witness :
  timer_running example_teardown.(st) = true
  /\ destructor_returned example_teardown = false.
Proof.
  split; [|reflexivity].
  apply (privileged_idle_timer_runs_until_destructor_returns
           (Concrete.posix_host (Some "/app/bin/app")) "/app/bin/app" ["--flag"]
           (NodeBindings_new true) example_state
           (schedule_start ++ [L_Embed; L_Embed; L_Host CallDestroy])
           example_teardown);
    [repeat split | reflexivity | vm_compute; reflexivity
    | exact example_teardown_reached].
Defined.

(** ** How many pumps teardown runs *)

Arguments pump_budget : simpl never.

(** No step of a core being destroyed raises the budget. *)
Lemma pump_budget_step l sys sys' :
  safe_inv sys ->
  sys.(phase) = Destroyed ->
  sys_step l sys = Step sys' ->
  pump_budget sys' <= pump_budget sys /\ sys'.(phase) = Destroyed.
Proof.
  intros [Henv Hcases] Hph Hstep.
  destruct sys as [[b ml cl sem tm dh ap ge sm um sf us tq tk tr] pc mpc ph io].
  cbn [st global_env] in Henv. cbn [phase] in Hph. subst ph.
  destruct ge as [env|]; [clear Henv | exfalso; apply Henv; reflexivity].
  safe_shapes Hcases; try discriminate;
    destruct l as [[]| | |];
    step_unfold Hstep;
    try discriminate Hstep;
    injection Hstep as <-;
    (split; [|reflexivity]);
    unfold pump_budget, sem_count;
    cbn [st embed_pc main_pc phase trace task_queue embed_sem_ has_exited
         is_polling pending_pumps posts_before_join length app];
    rewrite ?count_pumps_app, ?length_app;
    unfold count_pumps; cbn [filter is_uv_run length];
    lia.
Qed.

Lemma pump_budget_exec ls : forall sys sys',
  safe_inv sys ->
  sys.(phase) = Destroyed ->
  exec ls sys = Step sys' ->
  pump_budget sys' <= pump_budget sys.
Proof.
  induction ls as [|l ls IH]; intros sys sys' Hinv Hph Hex; cbn in Hex.
  - injection Hex as <-. lia.
  - destruct (sys_step l sys) as [sys1| |] eqn:Hstep; try discriminate Hex.
    destruct (pump_budget_step l sys sys1 Hinv Hph Hstep) as [Hle Hph1].
    pose proof (IH sys1 sys' (safe_inv_step l sys sys1 Hinv Hstep) Hph1 Hex).
    lia.
Qed.

(** X18: from the entry into the destructor on, at most two more pumps
    run, on any schedule: the one the embed thread had asked for or was
    about to, and the one it asks for when the destructor's post of the
    semaphore sends it through a last poll. *)
Theorem teardown_runs_at_most_two_pumps (s0 : State) (ls ls' : list Label)
  (sys sys' : System)
  (Hfresh : fresh s0)
  (Henv : s0.(global_env) <> None)
  (Hexec : exec ls (System_new s0) = Step sys)
  (Hentry : sys.(phase) = Destroyed)
  (Hopen : sys.(st).(embed_closed_) = false)
  (Hlater : exec ls' sys = Step sys') :
  count_pumps sys'.(st).(trace) <= count_pumps sys.(st).(trace) + 2.
Proof.
  pose proof (safe_inv_exec ls _ sys (safe_inv_new s0 Hfresh Henv) Hexec) as Hsafe.
  pose proof (pump_budget_exec ls' sys sys' Hsafe Hentry Hlater) as Hle.
  assert (Hstart : pump_budget sys = count_pumps sys.(st).(trace) + 2).
  { destruct (cycle_inv_exec ls _ sys (cycle_inv_new s0 Hfresh) Hexec Hopen)
      as [_ Hcases].
    destruct sys as [[b ml cl sem tm dh ap ge sm um sf us tq tk tr] pc mpc ph io].
    unfold between_tasks, before_pump, waiting, polling in Hcases.
    cbn [st embed_pc main_pc phase io_ready embed_closed_ embed_sem_ task_queue
         trace] in Hentry, Hcases.
    subst ph.
    repeat match goal with
      | Hd : _ \/ _ |- _ => destruct Hd
      | Hc : _ /\ _ |- _ => destruct Hc
      end; subst; try discriminate;
      unfold pump_budget, sem_count; cbn; lia. }
  assert (Hlow : count_pumps sys'.(st).(trace) <= pump_budget sys').
  { unfold pump_budget. lia. }
  lia.
Qed.

Lemma teardown_runs_at_most_two_pumps_witness :
  exists sys sys',
    exec (schedule_start
          ++ [L_Embed; L_Embed; L_Io; L_Embed; L_Embed; L_Embed;
              L_Host CallDestroy])
         (System_new example_state) = Step sys
    /\ exec [L_Main; L_Main; L_Main; L_Embed; L_Embed; L_Embed; L_Embed;
             L_Main; L_Main; L_Main; L_Main; L_Main; L_Main; L_Main; L_Main;
             L_Main; L_Main; L_Main] sys = Step sys'
    /\ sys'.(main_pc) = []
    /\ count_pumps sys.(st).(trace) = 1
    /\ count_pumps sys'.(st).(trace) = 3
    /\ count_pumps sys'.(st).(trace) <= count_pumps sys.(st).(trace) + 2.
Proof.
  destruct (exec (schedule_start
                  ++ [L_Embed; L_Embed; L_Io; L_Embed; L_Embed; L_Embed;
                      L_Host CallDestroy])
                 (System_new example_state)) as [sys| |] eqn:E;
    [|vm_compute in E; discriminate E ..].
  destruct (exec [L_Main; L_Main; L_Main; L_Embed; L_Embed; L_Embed; L_Embed;
                  L_Main; L_Main; L_Main; L_Main; L_Main; L_Main; L_Main; L_Main;
                  L_Main; L_Main; L_Main] sys) as [sys'| |] eqn:E';
    [|vm_compute in E; injection E as <-; vm_compute in E'; discriminate E' ..].
  assert (Hs : sys.(phase) = Destroyed /\ sys.(st).(embed_closed_) = false
               /\ count_pumps sys.(st).(trace) = 1).
  { vm_compute in E. injection E as <-. repeat split. }
  destruct Hs as (Hph & Hopen & Hp).
  pose proof (teardown_runs_at_most_two_pumps example_state _ _ sys sys'
                example_state_fresh ltac:(discriminate) E Hph Hopen E') as Hle.
  exists sys, sys'. split; [reflexivity|]. split; [exact E'|].
  vm_compute in E. injection E as <-.
  vm_compute in E'. injection E' as <-.
  repeat split. exact Hle.
Defined.

(** ** Teardown in the renderer role *)

(** With the idle timer never initialised, no step is the return of the
    destructor: the only statement that could be it faults. *)
Lemma uninitialised_timer_blocks_return l sys sys' :
  safe_inv sys ->
  sys.(st).(idle_timer_) = TimerUninitialized ->
  destructor_returned sys = false ->
  sys_step l sys = Step sys' ->
  destructor_returned sys' = false
  /\ sys'.(st).(idle_timer_) = TimerUninitialized.
Proof.
  intros [Henv Hcases] Htimer Hnot Hstep.
  destruct sys as [[b ml cl sem tm dh ap ge sm um sf us tq tk tr] pc mpc ph io].
  cbn [st global_env] in Henv. cbn [st idle_timer_] in Htimer. subst tm.
  destruct ge as [env|]; [clear Henv | exfalso; apply Henv; reflexivity].
  safe_shapes Hcases;
    cbn in Hnot; try discriminate Hnot;
    destruct l as [[]| | |];
    step_unfold Hstep;
    try discriminate Hstep;
    injection Hstep as <-;
    split; reflexivity.
Qed.

Lemma uninitialised_timer_blocks_return_exec ls : forall sys sys',
  safe_inv sys ->
  sys.(st).(idle_timer_) = TimerUninitialized ->
  destructor_returned sys = false ->
  exec ls sys = Step sys' ->
  destructor_returned sys' = false
  /\ sys'.(st).(idle_timer_) = TimerUninitialized.
Proof.
  induction ls as [|l ls IH]; intros sys sys' Hinv Htimer Hnot Hex; cbn in Hex.
  - injection Hex as <-. auto.
  - destruct (sys_step l sys) as [sys1| |] eqn:Hstep; try discriminate Hex.
    destruct (uninitialised_timer_blocks_return l sys sys1 Hinv Htimer Hnot Hstep)
      as [Hnot1 Htimer1].
    exact (IH sys1 sys' (safe_inv_step l sys sys1 Hinv Hstep) Htimer1 Hnot1 Hex).
Qed.

(** X19: in the renderer role, where neither the constructor nor
    [Initialize] initialises [idle_timer_], the destructor never returns
    without a fault: on no schedule does the core reach the state after
    the destructor's last statement, and the schedule that lets the embed
    thread leave and the main thread run on ends in the fault of
    [uv_timer_stop] on the uninitialised handle. *)
Theorem renderer_destructor_stops_uninitialised_timer (H : Host)
  (a0 : StringType os) (rest : list (StringType os)) (s s1 : State)
  (Hfresh : fresh s)
  (Hrole : s.(is_browser_) = false)
  (Htimer : s.(idle_timer_) = TimerUninitialized)
  (Hinit : Initialize (a0 :: rest) s = Ok (tt, s1)) :
  (forall ls sys,
     exec ls (System_new s1) = Step sys ->
     destructor_returned sys = false
     /\ sys.(st).(idle_timer_) = TimerUninitialized)
  /\ exec (schedule_start
           ++ [L_Host CallDestroy; L_Main; L_Main; L_Main; L_Embed;
               L_Main; L_Main; L_Main; L_Main; L_Main])
          (System_new s1)
     = Faulted (InvalidHandle "idle_timer_").
Proof.
  rewrite Initialize_run in Hinit. injection Hinit as <-.
  destruct (Initialize_post_fresh H a0 rest s Hfresh) as [Hfresh1 Henv1].
  assert (Htimer1 : (Initialize_post a0 rest s).(idle_timer_) = TimerUninitialized).
  { destruct s as [b ml cl sem tm dh ap ge sm um sf us tq tk tr].
    cbn in Hrole, Htimer. subst b tm. reflexivity. }
  split.
  - intros ls sys Hexec.
    apply (uninitialised_timer_blocks_return_exec ls
             (System_new (Initialize_post a0 rest s)) sys);
      [exact (safe_inv_new _ Hfresh1 Henv1) | exact Htimer1 | reflexivity
      | exact Hexec].
  - destruct Hfresh as (Hcl & Hsem & Hml & Hq & _).
    destruct s as [b ml cl sem tm dh ap ge sm um sf us tq tk tr].
    cbn in Hrole, Htimer, Hcl, Hsem, Hml, Hq. subst.
    unfold Initialize_post, System_new, schedule_start.
    cbn [is_browser_ app].
    destruct us as [|[r f] us];
      [destruct (negb (sf =? 0)%Z) eqn:Hc
      |destruct ((r =? 0)%Z || negb (f =? 0)%Z) eqn:Hc];
      repeat (progress (exec_run;
                        unfold PrepareMessageLoop_ops, RunMessageLoop_ops));
      reflexivity.
Qed.

Lemma renderer_destructor_stops_uninitialised_timer_witness :
  exists s1,
    @Initialize (Concrete.posix_host None) ["/app/bin/helper"]
      (NodeBindings_new false) = Ok (tt, s1)
    /\ exec (schedule_start
             ++ [L_Host CallDestroy; L_Main; L_Main; L_Main; L_Embed;
                 L_Main; L_Main; L_Main; L_Main; L_Main])
            (System_new s1)
       = Faulted (InvalidHandle "idle_timer_").
Proof.
  eexists. split; [apply Initialize_run|].
  exact (proj2 (renderer_destructor_stops_uninitialised_timer
                  (Concrete.posix_host None) "/app/bin/helper" []
                  (NodeBindings_new false) _
                  ltac:(repeat split) eq_refl eq_refl (Initialize_run _ _ _))).
Defined.
